(** * auth0-tools: export, batching and import of tenant users

    A shallow embedding of [main.go], in the two generations the file went
    through, and the properties of its job polling, stream batching,
    export and import commands, client construction and entry point.

    Layout: the Go run-time notions the program relies on ([Go]), the
    external collaborators it calls ([Env]), the process the program is
    started in ([Proc]), the functions of the two generations ([Gen1],
    [Gen2]), the notions the statements use, sample collaborators to run
    the model on, and then the lemmas. *)

From stdpp Require Import gmap strings list sorting.
From Stdlib Require Import ZArith Lia.

Set Warnings "-register-all".
Set Default Proof Using "Type*".

(** ** Go values and control outcomes *)

Module Go.

(** A Go [error] value, kept as its message. *)
Definition error : Type := string.

(** The pair [(T, error)] a Go function returns: either the value with a
    nil error, or the error. *)
Inductive Result (A : Type) : Type :=
| Ok (a : A)
| Err (e : error).
Arguments Ok {A} a.
Arguments Err {A} e.

(** How a call ends: it returns, it panics, the process exits
    ([log.Fatalf] calls [os.Exit(1)]), or it is still looping when the
    fuel of the model runs out. *)
Inductive Completion (A : Type) : Type :=
| Normal (a : A)
| Panicked (msg : string)
| Exited (code : Z)
| Diverging.
Arguments Normal {A} a.
Arguments Panicked {A} msg.
Arguments Exited {A} code.
Arguments Diverging {A}.

(** Two's complement wrap-around of a [bits]-wide signed integer. *)
Definition wrap (bits z : Z) : Z :=
  ((z + 2 ^ (bits - 1)) mod 2 ^ bits - 2 ^ (bits - 1))%Z.

(** [int] is 64 bits wide on the platforms the tool is built for. *)
Definition MaxInt : Z := (2 ^ 63 - 1)%Z.
Definition int_add (a b : Z) : Z := wrap 64 (a + b).

(** [len] of a byte slice. *)
Definition len (b : string) : Z := Z.of_nat (String.length b).

(** [time.Duration]: an int64 count of nanoseconds. *)
Definition Duration : Type := Z.
Definition Second : Duration := 1000000000%Z.
Definition Minute : Duration := (60 * Second)%Z.
Definition Duration_add (a b : Duration) : Duration := wrap 64 (a + b).
Definition Duration_mul (a b : Duration) : Duration := wrap 64 (a * b).

(** Values held by an [interface{}] after JSON decoding. A number is a
    float64; the program never computes with it, so it is kept as its bit
    pattern. *)
Inductive JValue : Type :=
| JNull
| JBool (b : bool)
| JNumber (bits : Z)
| JString (s : string)
| JArray (elems : list JValue)
| JObject (fields : gmap string JValue).

(** A [map[string]interface{}]: [None] is the nil map. *)
Definition GoMap : Type := option (gmap string JValue).

(** [strings.Split(s, sep)] for a one-byte separator: the pieces between
    the separators, one more than there are separators. *)
Fixpoint strings_Split (s : string) (sep : Ascii.ascii) : list string :=
  match s with
  | EmptyString => [EmptyString]
  | String c rest =>
      if Ascii.eqb c sep then EmptyString :: strings_Split rest sep
      else match strings_Split rest sep with
           | [] => [String c EmptyString]
           | piece :: pieces => String c piece :: pieces
           end
  end.

End Go.
Export Go.

(** ** External collaborators *)

Module Env.

(** [management.Job], with the pointer fields the program dereferences. *)
Record Job : Type := mkJob {
  ID : option string;
  Status : option string;
  Location : option string;
}.

(** Everything the program does to the outside, in order. Console output
    is not recorded. *)
Inductive Event : Type :=
| EvSleep (d : Duration)
| EvJobExportUsers
| EvJobImportUsers (users : list GoMap)
| EvJobRead (jobID : string)
| EvHttpGet (url : string)
| EvCreate (filename : string)
| EvOpen (filename : string)
| EvGzipNewReader
| EvCopy.

(** The state of a run is the log of its effects, oldest first. *)
Definition World : Type := list Event.

(** A Management API client. What the tenant answers may depend on all
    that happened before the call. An export or import call answers with
    the ID it stores in the job. *)
Record Management : Type := mkManagement {
  answer_ExportUsers : World -> Result (option string);
  answer_ImportUsers : World -> list GoMap -> Result (option string);
  answer_Read : World -> string -> Result Job;
}.

(** The network and the file system. *)
Record Host : Type := mkHost {
  answer_http_Get : World -> string -> Result string;
  answer_os_Create : World -> string -> option error;
  answer_os_Open : World -> string -> option error;
  answer_gzip_NewReader : World -> option error;
  answer_io_Copy : World -> Result string;
}.

(** The functions of [encoding/json] and [strings] the program calls.
    [NewDecoder r] is the sequence of results that successive [Decode]
    calls on a decoder over [r] give before [io.EOF]. *)
Inductive Decoded : Type :=
| DecOk (user : GoMap)
| DecErr (e : error).

Class Library : Type := mkLibrary {
  Marshal : GoMap -> Result string;
  Unmarshal : string -> Result GoMap;
  NewDecoder : string -> list Decoded;
  TrimSpace : string -> string;
}.

(** Computations over the world. *)
Definition M (A : Type) : Type := World -> Completion A * World.

Definition ret {A} (a : A) : M A := fun w => (Normal a, w).

Definition bind {A B} (c : M A) (k : A -> M B) : M B :=
  fun w =>
    match c w with
    | (Normal a, w') => k a w'
    | (Panicked msg, w') => (Panicked msg, w')
    | (Exited code, w') => (Exited code, w')
    | (Diverging, w') => (Diverging, w')
    end.

Definition panic {A} (msg : string) : M A := fun w => (Panicked msg, w).
Definition os_Exit {A} (code : Z) : M A := fun w => (Exited code, w).
Definition out_of_fuel {A} : M A := fun w => (Diverging, w).

(** A call to the outside: the answer is computed from the log so far,
    then the call is logged. *)
Definition call {A} (answer : World -> A) (ev : Event) : M A :=
  fun w => (Normal (answer w), w ++ [ev]).

(** Dereference of a pointer field. *)
Definition deref {A} (p : option A) : M A :=
  match p with
  | Some a => ret a
  | None => panic "invalid memory address or nil pointer dereference"
  end.

Definition time_Sleep (d : Duration) : M unit := call (fun _ => tt) (EvSleep d).
Definition log_Fatalf {A} : M A := os_Exit 1.

Definition Job_ExportUsers (m : Management) : M (Result (option string)) :=
  call (answer_ExportUsers m) EvJobExportUsers.
Definition Job_ImportUsers (m : Management) (users : list GoMap)
  : M (Result (option string)) :=
  call (fun w => answer_ImportUsers m w users) (EvJobImportUsers users).
Definition Job_Read (m : Management) (jobID : string) : M (Result Job) :=
  call (fun w => answer_Read m w jobID) (EvJobRead jobID).

(** The parts of a log the properties speak about. *)
Definition sleeps (w : World) : list Duration :=
  omap (fun ev => match ev with EvSleep d => Some d | _ => None end) w.
Definition reads (w : World) : list string :=
  omap (fun ev => match ev with EvJobRead j => Some j | _ => None end) w.
Definition imports (w : World) : list (list GoMap) :=
  omap (fun ev => match ev with EvJobImportUsers us => Some us | _ => None end) w.

End Env.
Export Env.

Declare Scope go_scope.
Delimit Scope go_scope with go.
Notation "x <- c ;; k" := (bind c (fun x => k))
  (at level 100, c at next level, right associativity) : go_scope.
Notation "c ;;; k" := (bind c (fun _ => k))
  (at level 100, right associativity) : go_scope.
Open Scope go_scope.

(** A batch of records and the list of batches [splitJSONData] returns. *)
Abbreviation Chunk := (list GoMap) (only parsing).
Abbreviation Chunks := (list (list GoMap)) (only parsing).

(** ** The process *)

Module Proc.

(** What cobra resolves the command line to: one of the two commands, or
    neither (help, an unknown command, a flag it rejects). *)
Inductive Command : Type :=
| CmdExport
| CmdImport
| CmdNone.

(** What [main] is started with: the environment of the process, the
    variables of the [.env] file as [godotenv] reads them (or the error of
    reading it), the constructor of Management API clients, and the
    command. These are read, not logged. *)
Record Process : Type := mkProcess {
  environ : gmap string string;
  dotenv : Result (gmap string string);
  management_New : string -> string -> string -> Result Management;
  command : Command;
}.

(** [os.Getenv]: the value, or the empty string when the variable is not
    set. *)
Definition Getenv (env : gmap string string) (key : string) : string :=
  default EmptyString (env !! key).

(** [godotenv.Load]: the variables of the file are set unless the
    environment has them already; nothing is set when the file cannot be
    read. *)
Definition godotenv_Load (p : Process) : Result (gmap string string) :=
  match dotenv p with
  | Err e => Err e
  | Ok vars => Ok (environ p ∪ vars)
  end.

End Proc.
Export Proc.

(** ** First generation of [main.go] *)

Module Gen1.
Section Program.
Context {lib : Library}.

Definition exportUsers (m : Management) : M (Result string) :=
  r <- Job_ExportUsers m ;;
  match r with
  | Err e => ret (Err e)
  | Ok id => jobID <- deref id ;; ret (Ok jobID)
  end.

Definition checkJobStatus (m : Management) (jobID : string) : M (Result string) :=
  r <- Job_Read m jobID ;;
  match r with
  | Err e => ret (Err e)
  | Ok job =>
      status <- deref (Status job) ;;
      if String.eqb status "completed"
      then location <- deref (Location job) ;; ret (Ok location)
      else ret (Err "job not completed yet")
  end.

Definition downloadFile (h : Host) (url filename : string) : M (option error) :=
  r <- call (fun w => answer_http_Get h w url) (EvHttpGet url) ;;
  match r with
  | Err e => ret (Some ("failed to download file: " +:+ e))
  | Ok _ =>
      r <- call (fun w => answer_os_Create h w filename) (EvCreate filename) ;;
      match r with
      | Some e => ret (Some ("failed to create file: " +:+ e))
      | None =>
          r <- call (answer_io_Copy h) EvCopy ;;
          match r with
          | Err e => ret (Some ("failed to write to file: " +:+ e))
          | Ok _ => ret None
          end
      end
  end.

(** The loop of [splitJSONData] over the lines of the input, with the
    three variables the loop updates. *)
Fixpoint splitJSONData_loop (lines : list string) (maxChunkSize : Z)
    (chunks : Chunks) (chunk : Chunk) (chunkSize : Z) : Result Chunks :=
  match lines with
  | [] =>
      if (0 <? length chunk)%nat then Ok (chunks ++ [chunk]) else Ok chunks
  | line :: lines =>
      let line := TrimSpace line in
      if String.eqb line EmptyString then
        splitJSONData_loop lines maxChunkSize chunks chunk chunkSize
      else
        match Unmarshal line with
        | Err e => Err ("failed to parse JSON: " +:+ e)
        | Ok user =>
            match Marshal user with
            | Err e => Err ("failed to marshal user: " +:+ e)
            | Ok userData =>
                let userSize := len userData in
                let '(chunks, chunk, chunkSize) :=
                  if (int_add chunkSize userSize >? maxChunkSize)%Z
                  then (chunks ++ [chunk], [], 0%Z)
                  else (chunks, chunk, chunkSize) in
                splitJSONData_loop lines maxChunkSize chunks
                  (chunk ++ [user]) (int_add chunkSize userSize)
            end
        end
  end.

Definition splitJSONData (data : string) (maxChunkSize : Z) : Result Chunks :=
  let lines := strings_Split data (Ascii.ascii_of_nat 10) in
  splitJSONData_loop lines maxChunkSize [] [] 0%Z.

(** [for { ... }] without an exit condition of its own: [fuel] bounds the
    number of iterations the model follows. *)
Fixpoint checkImportJobStatus (fuel : nat) (m : Management) (jobID : string)
    : M (option error) :=
  match fuel with
  | O => out_of_fuel
  | S fuel =>
      r <- Job_Read m jobID ;;
      match r with
      | Err e => ret (Some ("failed to read job status: " +:+ e))
      | Ok job =>
          status <- deref (Status job) ;;
          if String.eqb status "completed" then ret None
          else if String.eqb status "failed"
          then ret (Some ("import job " +:+ jobID +:+ " failed"))
          else time_Sleep (10 * Second)%Z ;;; checkImportJobStatus fuel m jobID
      end
  end.

Definition importUsersChunk (fuel : nat) (m : Management) (users : Chunk)
    : M (option error) :=
  r <- Job_ImportUsers m users ;;
  match r with
  | Err e => ret (Some ("failed to import users: " +:+ e))
  | Ok id => jobID <- deref id ;; checkImportJobStatus fuel m jobID
  end.

(** The polling loop of the export command. *)
Fixpoint exportCmd_Run_loop (fuel : nat) (sourceClient : Management) (h : Host)
    (jobID : string) : M unit :=
  match fuel with
  | O => out_of_fuel
  | S fuel =>
      time_Sleep (10 * Second)%Z ;;;
      r <- checkJobStatus sourceClient jobID ;;
      match r with
      | Ok location =>
          err <- downloadFile h location "exported_users.json.gz" ;;
          match err with
          | Some _ => log_Fatalf
          | None => ret tt
          end
      | Err _ => exportCmd_Run_loop fuel sourceClient h jobID
      end
  end.

Definition exportCmd_Run (fuel : nat) (sourceClient : Management) (h : Host)
    : M unit :=
  r <- exportUsers sourceClient ;;
  match r with
  | Err _ => log_Fatalf
  | Ok jobID => exportCmd_Run_loop fuel sourceClient h jobID
  end.

Definition getSourceAuth0Client (p : Process) (env : gmap string string)
    : Result Management :=
  let domain := Getenv env "SOURCE_DOMAIN" in
  let clientID := Getenv env "SOURCE_CLIENT_ID" in
  let clientSecret := Getenv env "SOURCE_CLIENT_SECRET" in
  if String.eqb domain EmptyString || String.eqb clientID EmptyString
     || String.eqb clientSecret EmptyString
  then Err "source Auth0 credentials are missing. Please check your .env file"
  else management_New p domain clientID clientSecret.

Definition getTargetAuth0Client (p : Process) (env : gmap string string)
    : Result Management :=
  let domain := Getenv env "DESTINATION_DOMAIN" in
  let clientID := Getenv env "DESTINATION_CLIENT_ID" in
  let clientSecret := Getenv env "DESTINATION_CLIENT_SECRET" in
  if String.eqb domain EmptyString || String.eqb clientID EmptyString
     || String.eqb clientSecret EmptyString
  then Err "target Auth0 credentials are missing. Please check your .env file"
  else management_New p domain clientID clientSecret.

Definition unzipGZFile (h : Host) (gzFile : string) : M (Result string) :=
  r <- call (fun w => answer_os_Open h w gzFile) (EvOpen gzFile) ;;
  match r with
  | Some e => ret (Err ("failed to open gz file: " +:+ e))
  | None =>
      r <- call (answer_gzip_NewReader h) EvGzipNewReader ;;
      match r with
      | Some e => ret (Err ("failed to create gzip reader: " +:+ e))
      | None =>
          r <- call (answer_io_Copy h) EvCopy ;;
          match r with
          | Err e => ret (Err ("failed to read gz file: " +:+ e))
          | Ok result => ret (Ok result)
          end
      end
  end.

(** [for i, chunk := range chunks] of the import command; every poll is
    followed for [fuel] rounds. *)
Fixpoint importCmd_Run_loop (fuel : nat) (targetClient : Management)
    (chunks : Chunks) : M unit :=
  match chunks with
  | [] => ret tt
  | chunk :: chunks =>
      err <- importUsersChunk fuel targetClient chunk ;;
      match err with
      | Some _ => log_Fatalf
      | None => importCmd_Run_loop fuel targetClient chunks
      end
  end.

Definition importCmd_Run (fuel : nat) (targetClient : Management) (h : Host)
    : M unit :=
  r <- unzipGZFile h "exported_users.json.gz" ;;
  match r with
  | Err _ => log_Fatalf
  | Ok jsonData =>
      match splitJSONData jsonData 500000%Z with
      | Err _ => log_Fatalf
      | Ok chunks => importCmd_Run_loop fuel targetClient chunks
      end
  end.

Definition main (fuel : nat) (p : Process) (h : Host) : M unit :=
  match godotenv_Load p with
  | Err _ => log_Fatalf
  | Ok env =>
      match getSourceAuth0Client p env with
      | Err _ => log_Fatalf
      | Ok sourceClient =>
          match getTargetAuth0Client p env with
          | Err _ => log_Fatalf
          | Ok targetClient =>
              match command p with
              | CmdExport => exportCmd_Run fuel sourceClient h
              | CmdImport => importCmd_Run fuel targetClient h
              | CmdNone => ret tt
              end
          end
      end
  end.

End Program.
End Gen1.

(** ** Second generation of [main.go] *)

Module Gen2.
Section Program.
Context {lib : Library}.

Definition exportUsers (m : Management) : M (Result string) :=
  r <- Job_ExportUsers m ;;
  match r with
  | Err e => ret (Err e)
  | Ok id => jobID <- deref id ;; ret (Ok jobID)
  end.

Definition checkJobStatus (m : Management) (jobID : string) : M (Result string) :=
  r <- Job_Read m jobID ;;
  match r with
  | Err e => ret (Err e)
  | Ok job =>
      status <- deref (Status job) ;;
      if String.eqb status "completed"
      then location <- deref (Location job) ;; ret (Ok location)
      else ret (Err "job not completed yet")
  end.

Definition downloadFile (h : Host) (url filename : string) : M (option error) :=
  r <- call (fun w => answer_http_Get h w url) (EvHttpGet url) ;;
  match r with
  | Err e => ret (Some ("failed to download file: " +:+ e))
  | Ok _ =>
      r <- call (fun w => answer_os_Create h w filename) (EvCreate filename) ;;
      match r with
      | Some e => ret (Some ("failed to create file: " +:+ e))
      | None =>
          r <- call (answer_io_Copy h) EvCopy ;;
          match r with
          | Err e => ret (Some ("failed to write to file: " +:+ e))
          | Ok _ => ret None
          end
      end
  end.

Definition unzipGZFile (h : Host) (gzFile : string) : M (Result string) :=
  r <- call (fun w => answer_os_Open h w gzFile) (EvOpen gzFile) ;;
  match r with
  | Some e => ret (Err ("failed to open gz file: " +:+ e))
  | None =>
      r <- call (answer_gzip_NewReader h) EvGzipNewReader ;;
      match r with
      | Some e => ret (Err ("failed to create gzip reader: " +:+ e))
      | None =>
          r <- call (answer_io_Copy h) EvCopy ;;
          match r with
          | Err e => ret (Err ("failed to read gz file: " +:+ e))
          | Ok result => ret (Ok result)
          end
      end
  end.

(** [user["email_verified"] = emailVerify]: a store into a nil map
    panics. *)
Definition set_email_verified (user : GoMap) (emailVerify : bool)
    : Completion GoMap :=
  match user with
  | None => Panicked "assignment to entry in nil map"
  | Some fields => Normal (Some (<["email_verified" := JBool emailVerify]> fields))
  end.

(** The loop of [splitJSONData] over the results of [decoder.Decode],
    with the three variables the loop updates. *)
Fixpoint splitJSONData_loop (decoder : list Decoded) (maxChunkSize : Z)
    (emailVerify : bool) (chunks : Chunks) (chunk : Chunk) (chunkSize : Z)
    : Completion (Result Chunks) :=
  match decoder with
  | [] =>
      if (0 <? length chunk)%nat then Normal (Ok (chunks ++ [chunk]))
      else Normal (Ok chunks)
  | DecErr e :: _ => Normal (Err ("failed to decode JSON: " +:+ e))
  | DecOk user :: decoder =>
      match set_email_verified user emailVerify with
      | Normal user =>
          match Marshal user with
          | Err e => Normal (Err ("failed to marshal user: " +:+ e))
          | Ok userData =>
              let userSize := len userData in
              let '(chunks, chunk, chunkSize) :=
                if (int_add chunkSize userSize >? maxChunkSize)%Z
                then (chunks ++ [chunk], [], 0%Z)
                else (chunks, chunk, chunkSize) in
              splitJSONData_loop decoder maxChunkSize emailVerify chunks
                (chunk ++ [user]) (int_add chunkSize userSize)
          end
      | Panicked msg => Panicked msg
      | Exited code => Exited code
      | Diverging => Diverging
      end
  end.

Definition splitJSONData (reader : string) (maxChunkSize : Z) (emailVerify : bool)
    : Completion (Result Chunks) :=
  let decoder := NewDecoder reader in
  splitJSONData_loop decoder maxChunkSize emailVerify [] [] 0%Z.

(** The loop of [checkImportJobStatus], with the four durations of the
    function. Every round that goes on adds [interval] to [totalWait];
    [fuel] bounds the rounds the model follows. *)
Fixpoint checkImportJobStatus_loop (fuel : nat) (m : Management) (jobID : string)
    (interval maxInterval totalWait maxWait : Duration) : M (option error) :=
  match fuel with
  | O => out_of_fuel
  | S fuel =>
      if (totalWait <? maxWait)%Z then
        r <- Job_Read m jobID ;;
        match r with
        | Err e => ret (Some ("failed to read job status: " +:+ e))
        | Ok job =>
            status <- deref (Status job) ;;
            if String.eqb status "completed" then ret None
            else if String.eqb status "failed"
            then ret (Some ("import job " +:+ jobID +:+ " failed"))
            else
              time_Sleep interval ;;;
              let totalWait := Duration_add totalWait interval in
              let interval :=
                if (interval <? maxInterval)%Z then Duration_mul interval 2%Z
                else interval in
              checkImportJobStatus_loop fuel m jobID
                interval maxInterval totalWait maxWait
        end
      else ret (Some ("import job " +:+ jobID +:+ " timed out"))
  end.

(** A round that goes on adds at least five seconds to [totalWait], so
    sixty rounds exhaust the five minutes; [checkImportJobStatus_ends]
    shows that the fuel is never what ends the loop. *)
Definition checkImportJobStatus (m : Management) (jobID : string)
    : M (option error) :=
  let interval := (5 * Second)%Z in
  let maxInterval := (30 * Second)%Z in
  let totalWait := (0 * Second)%Z in
  let maxWait := (5 * Minute)%Z in
  checkImportJobStatus_loop 61 m jobID interval maxInterval totalWait maxWait.

Definition importUsersChunk (m : Management) (users : Chunk) : M (option error) :=
  r <- Job_ImportUsers m users ;;
  match r with
  | Err e => ret (Some ("failed to import users: " +:+ e))
  | Ok id => jobID <- deref id ;; checkImportJobStatus m jobID
  end.

(** The polling loop of the export command. *)
Fixpoint exportCmd_Run_loop (fuel : nat) (sourceClient : Management) (h : Host)
    (jobID : string) : M unit :=
  match fuel with
  | O => out_of_fuel
  | S fuel =>
      time_Sleep (10 * Second)%Z ;;;
      r <- checkJobStatus sourceClient jobID ;;
      match r with
      | Ok location =>
          err <- downloadFile h location "exported_users.json.gz" ;;
          match err with
          | Some _ => log_Fatalf
          | None => ret tt
          end
      | Err _ => exportCmd_Run_loop fuel sourceClient h jobID
      end
  end.

Definition exportCmd_Run (fuel : nat) (sourceClient : Management) (h : Host)
    : M unit :=
  r <- exportUsers sourceClient ;;
  match r with
  | Err _ => ret tt
  | Ok jobID => exportCmd_Run_loop fuel sourceClient h jobID
  end.

(** [for i, chunk := range chunks] of the import command. *)
Fixpoint importCmd_Run_loop (targetClient : Management) (chunks : Chunks)
    : M unit :=
  match chunks with
  | [] => ret tt
  | chunk :: chunks =>
      err <- importUsersChunk targetClient chunk ;;
      match err with
      | Some _ => log_Fatalf
      | None => importCmd_Run_loop targetClient chunks
      end
  end.

Definition importCmd_Run (targetClient : Management) (h : Host) : M unit :=
  err <- call (fun w => answer_os_Open h w "exported_users.json.gz")
           (EvOpen "exported_users.json.gz") ;;
  match err with
  | Some _ => ret tt
  | None =>
      r <- unzipGZFile h "exported_users.json.gz" ;;
      match r with
      | Err _ => ret tt
      | Ok jsonData =>
          let reader := jsonData in
          r <- (fun w => (splitJSONData reader 500000%Z true, w)) ;;
          match r with
          | Err _ => ret tt
          | Ok chunks => importCmd_Run_loop targetClient chunks
          end
      end
  end.

Definition getAuth0Client (p : Process) (env : gmap string string)
    (domainEnv clientIDEnv clientSecretEnv : string) : Result Management :=
  let domain := Getenv env domainEnv in
  let clientID := Getenv env clientIDEnv in
  let clientSecret := Getenv env clientSecretEnv in
  if String.eqb domain EmptyString || String.eqb clientID EmptyString
     || String.eqb clientSecret EmptyString
  then Err (domainEnv +:+ " credentials are missing. Please check your .env file")
  else management_New p domain clientID clientSecret.

(** A [.env] file that cannot be loaded is a warning: the process goes on
    with the environment it has. *)
Definition main (fuel : nat) (p : Process) (h : Host) : M unit :=
  let env :=
    match godotenv_Load p with
    | Err _ => environ p
    | Ok env => env
    end in
  match getAuth0Client p env "SOURCE_DOMAIN" "SOURCE_CLIENT_ID"
          "SOURCE_CLIENT_SECRET" with
  | Err _ => ret tt
  | Ok sourceClient =>
      match getAuth0Client p env "DESTINATION_DOMAIN" "DESTINATION_CLIENT_ID"
              "DESTINATION_CLIENT_SECRET" with
      | Err _ => ret tt
      | Ok targetClient =>
          match command p with
          | CmdExport => exportCmd_Run fuel sourceClient h
          | CmdImport => importCmd_Run targetClient h
          | CmdNone => ret tt
          end
      end
  end.

End Program.
End Gen2.

(** ** The batching loop on its own

    Both generations run the same loop body once a record is decoded and
    re-serialized. [pack] is that loop over records whose serialized size
    [size] gives, so that its properties are proved once. *)

Fixpoint pack (size : GoMap -> Z) (maxChunkSize : Z) (users : list GoMap)
    (chunks : Chunks) (chunk : Chunk) (chunkSize : Z) : Chunks :=
  match users with
  | [] => if (0 <? length chunk)%nat then chunks ++ [chunk] else chunks
  | user :: users =>
      let userSize := size user in
      let '(chunks, chunk, chunkSize) :=
        if (int_add chunkSize userSize >? maxChunkSize)%Z
        then (chunks ++ [chunk], [], 0%Z)
        else (chunks, chunk, chunkSize) in
      pack size maxChunkSize users chunks (chunk ++ [user])
        (int_add chunkSize userSize)
  end.

(** The number of bytes [json.Marshal] gives for a record. *)
Definition serialized_size {lib : Library} (user : GoMap) : Z :=
  match Marshal user with
  | Ok userData => len userData
  | Err _ => 0%Z
  end.

Definition total_size {lib : Library} (users : list GoMap) : Z :=
  foldr (fun user acc => (serialized_size user + acc)%Z) 0%Z users.

(** A batch is within the cap, or holds at most one record. *)
Definition fits {lib : Library} (maxChunkSize : Z) (chunk : list GoMap) : Prop :=
  (total_size chunk <= maxChunkSize)%Z \/ (length chunk <= 1)%nat.

(** A record as the second generation hands it on. *)
Definition with_email_verified (emailVerify : bool) (fields : gmap string JValue)
    : GoMap :=
  Some (<["email_verified" := JBool emailVerify]> fields).

(** The lines of the input the first generation decodes. *)
Definition record_lines {lib : Library} (data : string) : list string :=
  filter (fun line => line ≠ EmptyString)
    (TrimSpace <$> strings_Split data (Ascii.ascii_of_nat 10)).

(** ** Statuses a tenant may report *)

(** Every read of the job succeeds with a status that is neither
    [completed] nor [failed]. *)
Definition always_pending (m : Management) (jobID : string) : Prop :=
  forall w, exists job status,
    answer_Read m w jobID = Ok job /\ Status job = Some status /\
    String.eqb status "completed" = false /\ String.eqb status "failed" = false.

(** No read of the job ever shows it completed: it fails, or succeeds with
    another status. *)
Definition never_completed (m : Management) (jobID : string) : Prop :=
  forall w, match answer_Read m w jobID with
            | Ok job => exists status, Status job = Some status /\
                                       String.eqb status "completed" = false
            | Err _ => True
            end.

(** The log of [n] rounds of a loop that sleeps and then reads the job. *)
Fixpoint sleep_read_rounds (n : nat) (d : Duration) (jobID : string) : World :=
  match n with
  | O => []
  | S n => EvSleep d :: EvJobRead jobID :: sleep_read_rounds n d jobID
  end.

(** The log of [n] rounds of a loop that reads the job and then sleeps. *)
Fixpoint read_sleep_rounds (n : nat) (d : Duration) (jobID : string) : World :=
  match n with
  | O => []
  | S n => EvJobRead jobID :: EvSleep d :: read_sleep_rounds n d jobID
  end.

(** ** The schedule of the second-generation poller *)

(** The interval after a round that goes on. *)
Definition next_interval (interval maxInterval : Duration) : Duration :=
  if (interval <? maxInterval)%Z then Duration_mul interval 2%Z else interval.

(** The sleeps of [checkImportJobStatus_loop] on a job that stays pending,
    for at most [rounds] rounds. *)
Fixpoint plan (rounds : nat) (interval maxInterval totalWait maxWait : Duration)
    : list Duration :=
  match rounds with
  | O => []
  | S rounds =>
      if (totalWait <? maxWait)%Z
      then interval ::
           plan rounds (next_interval interval maxInterval) maxInterval
             (Duration_add totalWait interval) maxWait
      else []
  end.

(** The log of a poll of a job that stays pending through the sleeps
    [ds]. *)
Definition pending_rounds (jobID : string) (ds : list Duration) : World :=
  ds ≫= (fun d => [EvJobRead jobID; EvSleep d]).

(** The sleeps of the second generation, in seconds: 5, 10, 20, then 40
    until the five minutes are over. *)
Definition schedule : list Duration :=
  (fun s => (s * Second)%Z) <$> [5; 10; 20; 40; 40; 40; 40; 40; 40; 40]%Z.

(** ** Polls that go on for some rounds *)

(** An answer that keeps the import pollers going: a job whose status is
    neither [completed] nor [failed]. *)
Definition pending_answer (r : Result Job) : Prop :=
  exists job status,
    r = Ok job /\ Status job = Some status /\
    String.eqb status "completed" = false /\ String.eqb status "failed" = false.

(** An answer that keeps the export loop going: a failed read, or a job
    with a status other than [completed]. *)
Definition retry_answer (r : Result Job) : Prop :=
  match r with
  | Ok job => exists status, Status job = Some status /\
                             String.eqb status "completed" = false
  | Err _ => True
  end.

(** The job is read as pending at each of the rounds whose sleeps are
    [ds], in a poll that starts from the log [w]. *)
Definition pending_during (m : Management) (jobID : string) (w : World)
    (ds : list Duration) : Prop :=
  forall k, (k < length ds)%nat ->
    pending_answer (answer_Read m (w ++ pending_rounds jobID (take k ds)) jobID).



(** The export loop, started from the log [w], goes on at each of its
    first [n] reads. *)
Definition waiting_during (m : Management) (jobID : string) (w : World)
    (n : nat) : Prop :=
  forall k, (k < n)%nat ->
    retry_answer
      (answer_Read m
         (w ++ sleep_read_rounds k (10 * Second)%Z jobID ++ [EvSleep (10 * Second)%Z])
         jobID).

(** The interval and the total wait of [checkImportJobStatus_loop] after
    [n] rounds that went on. *)
Fixpoint advance (n : nat) (interval maxInterval totalWait : Duration)
    : Duration * Duration :=
  match n with
  | O => (interval, totalWait)
  | S n =>
      advance n (next_interval interval maxInterval) maxInterval
        (Duration_add totalWait interval)
  end.

(** An event of a poll: a read of the job or a sleep. *)
Definition poll_event (jobID : string) (ev : Event) : Prop :=
  ev = EvJobRead jobID \/ exists d, ev = EvSleep d.

(** The archive is opened, opened again by [unzipGZFile], and read to its
    end as [data], from the log [w] on. *)
Definition archive_read (h : Host) (w : World) (data : string) : Prop :=
  answer_os_Open h w "exported_users.json.gz" = None /\
  answer_os_Open h (w ++ [EvOpen "exported_users.json.gz"])
    "exported_users.json.gz" = None /\
  answer_gzip_NewReader h
    (w ++ [EvOpen "exported_users.json.gz"; EvOpen "exported_users.json.gz"]) = None /\
  answer_io_Copy h
    (w ++ [EvOpen "exported_users.json.gz"; EvOpen "exported_users.json.gz";
           EvGzipNewReader]) = Ok data.

(** The log of reading the archive. *)
Definition archive_log : World :=
  [EvOpen "exported_users.json.gz"; EvOpen "exported_users.json.gz";
   EvGzipNewReader; EvCopy].

(** Every import is given a job that is read as completed from then on. *)
Definition completes_at_once (m : Management) : Prop :=
  forall w users, exists jobID,
    answer_ImportUsers m w users = Ok (Some jobID) /\
    forall w', exists job,
      answer_Read m w' jobID = Ok job /\ Status job = Some "completed".

(** The variable is not set, or set to the empty string. *)
Definition missing (env : gmap string string) (key : string) : Prop :=
  env !! key = None \/ env !! key = Some EmptyString.

(** ** Sample collaborators, to run the program on examples *)

Module Sample.

Definition quote : string := String (Ascii.ascii_of_nat 34) EmptyString.

(** A plain encoder: scalars as JSON writes them, nested values by a
    placeholder. *)
Definition encode_value (v : JValue) : string :=
  match v with
  | JNull => "null"
  | JBool true => "true"
  | JBool false => "false"
  | JNumber _ => "0"
  | JString s => quote +:+ s +:+ quote
  | JArray _ => "[]"
  | JObject _ => "{}"
  end.

Definition encode_field (kv : string * JValue) : string :=
  quote +:+ kv.1 +:+ quote +:+ ":" +:+ encode_value kv.2.

Fixpoint join (pieces : list string) : string :=
  match pieces with
  | [] => EmptyString
  | [p] => p
  | p :: ps => p +:+ "," +:+ join ps
  end.

Definition encode (user : GoMap) : Result string :=
  match user with
  | None => Ok "null"
  | Some fields => Ok ("{" +:+ join (encode_field <$> map_to_list fields) +:+ "}")
  end.

(** A decoder given by the table of the lines it understands. *)
Fixpoint parse (table : list (string * GoMap)) (line : string) : Result GoMap :=
  match table with
  | [] => Err "invalid character"
  | (text, user) :: table =>
      if String.eqb text line then Ok user else parse table line
  end.

(** A library whose streaming decoder yields [docs] and whose line decoder
    reads [table]; lines are taken as already trimmed. *)
Definition library (docs : list Decoded) (table : list (string * GoMap)) : Library :=
  {| Marshal := encode;
     Unmarshal := parse table;
     NewDecoder := fun _ => docs;
     TrimSpace := fun s => s |}.

Definition user1 : gmap string JValue :=
  {[ "user_id" := JString "1"; "email" := JString "a@x.com" ]}.
Definition user2 : gmap string JValue :=
  {[ "user_id" := JString "2"; "email" := JString "b@x.com";
     "email_verified" := JBool false ]}.
Definition user3 : gmap string JValue :=
  {[ "user_id" := JString "3" ]}.

(** Streams of decoded documents: two records; one small record; three
    records; a record, a document that does not decode, and a record after
    it. *)
Definition two_records : list Decoded :=
  [DecOk (Some user1); DecOk (Some user2)].
Definition one_record : list Decoded := [DecOk (Some user3)].
Definition three_records : list Decoded :=
  [DecOk (Some user1); DecOk (Some user2); DecOk (Some user3)].
Definition broken_stream : list Decoded :=
  [DecOk (Some user1); DecErr "unexpected end of JSON input"; DecOk (Some user2)].

(** A record, a [null] document, and a document that breaks off. *)
Definition null_then_broken : list Decoded :=
  [DecOk (Some user1); DecOk None; DecErr "unexpected end of JSON input"].

Definition line1 : string := "{user 1}".
Definition line2 : string := "{user 2}".
Definition table : list (string * GoMap) :=
  [(line1, Some user1); (line2, Some user2)].
Definition two_lines : string :=
  line1 +:+ String (Ascii.ascii_of_nat 10) line2.

(** The same three documents as lines for the line decoder: the record,
    [null], which [json.Unmarshal] accepts and leaves the map nil, and a
    line that breaks off. *)
Definition table_with_null : list (string * GoMap) :=
  ("null", None) :: table.
Definition null_then_broken_lines : string :=
  line1 +:+ String (Ascii.ascii_of_nat 10)
    ("null" +:+ String (Ascii.ascii_of_nat 10) "{user").

(** A tenant on which every job has the given status, and one whose
    status endpoint cannot be reached. *)
Definition tenant_with_status (status : string) : Management :=
  {| answer_ExportUsers := fun _ => Ok (Some "job_1");
     answer_ImportUsers := fun _ _ => Ok (Some "job_1");
     answer_Read := fun _ _ => Ok (mkJob (Some "job_1") (Some status) None) |}.

Definition tenant_unreachable : Management :=
  {| answer_ExportUsers := fun _ => Ok (Some "job_1");
     answer_ImportUsers := fun _ _ => Ok (Some "job_1");
     answer_Read := fun _ _ => Err "connection reset by peer" |}.


(** Three batches of one record each. *)
Definition batch1 : list GoMap := [Some user1].
Definition batch2 : list GoMap := [Some user2].
Definition batch3 : list GoMap := [Some user3].

(** A tenant on which a job is pending for its first [n] reads and then
    has the given status; the count is of all the reads of the log. *)
Definition tenant_settles_after (n : nat) (status : string) : Management :=
  {| answer_ExportUsers := fun _ => Ok (Some "job_1");
     answer_ImportUsers := fun _ _ => Ok (Some "job_1");
     answer_Read := fun w _ =>
       if (length (reads w) <? n)%nat
       then Ok (mkJob (Some "job_1") (Some "pending") None)
       else Ok (mkJob (Some "job_1") (Some status) (Some "https://tenant/export.gz")) |}.

(** A tenant whose status endpoint answers twice and then fails. *)
Definition tenant_drops_after_two : Management :=
  {| answer_ExportUsers := fun _ => Ok (Some "job_1");
     answer_ImportUsers := fun _ _ => Ok (Some "job_1");
     answer_Read := fun w _ =>
       if (length (reads w) <? 2)%nat
       then Ok (mkJob (Some "job_1") (Some "pending") None)
       else Err "connection reset by peer" |}.

(** A tenant that cannot start an import. *)
Definition tenant_rejects_imports : Management :=
  {| answer_ExportUsers := fun _ => Ok (Some "job_1");
     answer_ImportUsers := fun _ _ => Err "429 Too Many Requests";
     answer_Read := fun _ _ => Err "connection reset by peer" |}.

(** A host on which the download request fails. *)
Definition host_offline : Host :=
  {| answer_http_Get := fun _ _ => Err "no such host";
     answer_os_Create := fun _ _ => None;
     answer_os_Open := fun _ _ => None;
     answer_gzip_NewReader := fun _ => None;
     answer_io_Copy := fun _ => Ok "archive" |}.

(** Processes: one with all six credentials in its environment and no
    [.env] file, one whose [.env] file lacks the destination secret. *)
Definition credentials : gmap string string :=
  {[ "SOURCE_DOMAIN" := "a.auth0.com"; "SOURCE_CLIENT_ID" := "ida";
     "SOURCE_CLIENT_SECRET" := "secreta";
     "DESTINATION_DOMAIN" := "b.auth0.com"; "DESTINATION_CLIENT_ID" := "idb";
     "DESTINATION_CLIENT_SECRET" := "secretb" ]}.

Definition process_without_dotenv (c : Command) : Process :=
  {| environ := credentials;
     dotenv := Err "open .env: no such file or directory";
     management_New := fun _ _ _ => Ok (tenant_with_status "completed");
     command := c |}.

Definition process_incomplete (c : Command) : Process :=
  {| environ := ∅;
     dotenv := Ok (delete "DESTINATION_CLIENT_SECRET" credentials);
     management_New := fun _ _ _ => Ok (tenant_with_status "completed");
     command := c |}.

Definition host : Host :=
  {| answer_http_Get := fun _ _ => Ok "archive";
     answer_os_Create := fun _ _ => None;
     answer_os_Open := fun _ _ => None;
     answer_gzip_NewReader := fun _ => None;
     answer_io_Copy := fun _ => Ok "archive" |}.

End Sample.

(** * Properties *)

(** ** Integer arithmetic within range *)

Lemma wrap_in_range (z : Z) :
  (- 2 ^ 63 <= z < 2 ^ 63)%Z -> wrap 64 z = z.
Proof.
  intros Hz. unfold wrap.
  replace (2 ^ (64 - 1))%Z with (2 ^ 63)%Z by reflexivity.
  rewrite Z.mod_small; lia.
Qed.

Lemma int_add_in_range (a b : Z) :
  (0 <= a)%Z -> (0 <= b)%Z -> (a + b <= MaxInt)%Z -> int_add a b = (a + b)%Z.
Proof.
  unfold int_add, MaxInt. intros Ha Hb Hab. apply wrap_in_range. lia.
Qed.

(** ** The stream batcher *)

Section Batching.
Context {lib : Library}.

Lemma serialized_size_nonneg (user : GoMap) : (0 <= serialized_size user)%Z.
Proof. unfold serialized_size, len. destruct (Marshal user); lia. Qed.

Lemma serialized_size_Marshal (user : GoMap) (userData : string) :
  Marshal user = Ok userData -> len userData = serialized_size user.
Proof. intros H. unfold serialized_size. now rewrite H. Qed.

Lemma total_size_nonneg (users : list GoMap) : (0 <= total_size users)%Z.
Proof.
  induction users as [|u users IH]; simpl; [lia|].
  pose proof (serialized_size_nonneg u). lia.
Qed.

Lemma total_size_app (us vs : list GoMap) :
  total_size (us ++ vs) = (total_size us + total_size vs)%Z.
Proof. induction us as [|u us IH]; simpl; [reflexivity | rewrite IH; lia]. Qed.

Lemma total_size_elem (user : GoMap) (users : list GoMap) :
  user ∈ users -> (serialized_size user <= total_size users)%Z.
Proof.
  intros Hin. apply list_elem_of_split in Hin as (us & vs & ->).
  rewrite total_size_app. simpl.
  pose proof (total_size_nonneg us). pose proof (total_size_nonneg vs). lia.
Qed.

(** Closing the batch in progress at the end of the stream. *)
Lemma pack_nil size maxChunkSize chunks chunk chunkSize :
  pack size maxChunkSize [] chunks chunk chunkSize =
  match chunk with [] => chunks | _ => chunks ++ [chunk] end.
Proof. destruct chunk; reflexivity. Qed.

(** One round of the loop, by the outcome of the size test. *)
Lemma pack_cons_flush size maxChunkSize user users chunks chunk chunkSize :
  (maxChunkSize < int_add chunkSize (size user))%Z ->
  pack size maxChunkSize (user :: users) chunks chunk chunkSize =
  pack size maxChunkSize users (chunks ++ [chunk]) [user] (int_add 0 (size user)).
Proof.
  intros Hgt. simpl. rewrite Z.gtb_ltb.
  destruct (Z.ltb_spec maxChunkSize (int_add chunkSize (size user))); [reflexivity | lia].
Qed.

Lemma pack_cons_keep size maxChunkSize user users chunks chunk chunkSize :
  (int_add chunkSize (size user) <= maxChunkSize)%Z ->
  pack size maxChunkSize (user :: users) chunks chunk chunkSize =
  pack size maxChunkSize users chunks (chunk ++ [user])
    (int_add chunkSize (size user)).
Proof.
  intros Hle. simpl. rewrite Z.gtb_ltb.
  destruct (Z.ltb_spec maxChunkSize (int_add chunkSize (size user))); [lia | reflexivity].
Qed.

(** The batches, put end to end, are the batches and the records the
    loop started from followed by the records it read. *)
Lemma pack_concat size maxChunkSize users chunks chunk chunkSize :
  concat (pack size maxChunkSize users chunks chunk chunkSize) =
  concat chunks ++ chunk ++ users.
Proof.
  revert chunks chunk chunkSize.
  induction users as [|user users IH]; intros chunks chunk chunkSize.
  - rewrite pack_nil. destruct chunk as [|u chunk].
    + now rewrite app_nil_r.
    + rewrite concat_app. simpl. now rewrite !app_nil_r.
  - destruct (Z.lt_ge_cases maxChunkSize (int_add chunkSize (size user))) as [Hgt|Hle].
    + rewrite pack_cons_flush by exact Hgt. rewrite IH, concat_app. simpl.
      now rewrite app_nil_r, <- app_assoc.
    + rewrite pack_cons_keep by exact Hle. rewrite IH.
      now rewrite <- (app_assoc chunk [user] users).
Qed.

Lemma pack_fits maxChunkSize users chunks chunk chunkSize :
  chunkSize = total_size chunk ->
  (total_size chunk + total_size users <= MaxInt)%Z ->
  Forall (fits maxChunkSize) chunks ->
  fits maxChunkSize chunk ->
  Forall (fits maxChunkSize)
    (pack serialized_size maxChunkSize users chunks chunk chunkSize).
Proof.
  revert chunks chunk chunkSize.
  induction users as [|user users IH]; intros chunks chunk chunkSize -> Hmax Hchunks Hchunk.
  - rewrite pack_nil. destruct chunk; [exact Hchunks|].
    apply Forall_app; split; [exact Hchunks | now apply Forall_singleton].
  - simpl in Hmax.
    pose proof (serialized_size_nonneg user) as Huser.
    pose proof (total_size_nonneg chunk) as Hc.
    pose proof (total_size_nonneg users) as Hus.
    assert (int_add (total_size chunk) (serialized_size user) =
            (total_size chunk + serialized_size user)%Z) as Hadd
      by (apply int_add_in_range; lia).
    destruct (Z.lt_ge_cases maxChunkSize
                (int_add (total_size chunk) (serialized_size user))) as [Hgt|Hle].
    + rewrite pack_cons_flush by exact Hgt. apply IH.
      * rewrite int_add_in_range by lia. simpl. lia.
      * simpl. lia.
      * apply Forall_app; split; [exact Hchunks | now apply Forall_singleton].
      * right. simpl. lia.
    + rewrite pack_cons_keep by exact Hle. apply IH.
      * rewrite Hadd, total_size_app. simpl. lia.
      * rewrite total_size_app. simpl. lia.
      * exact Hchunks.
      * left. rewrite total_size_app. simpl. lia.
Qed.

Lemma fits_several maxChunkSize chunk :
  fits maxChunkSize chunk -> (1 < length chunk)%nat ->
  (total_size chunk <= maxChunkSize)%Z.
Proof. intros [H|H] Hlen; [exact H | lia]. Qed.

Lemma fits_oversized maxChunkSize chunk user :
  fits maxChunkSize chunk -> user ∈ chunk ->
  (maxChunkSize < serialized_size user)%Z -> chunk = [user].
Proof.
  intros [H|H] Hin Hbig.
  - apply total_size_elem in Hin. lia.
  - destruct chunk as [|u [|v chunk]]; simpl in H; try lia.
    + inversion Hin.
    + apply list_elem_of_singleton in Hin. now subst.
Qed.

(** When the first record alone is over the cap, the batch in progress is
    closed while it is still empty. *)
Lemma pack_first_oversized size maxChunkSize user users :
  (maxChunkSize < int_add 0 (size user))%Z ->
  exists chunks, pack size maxChunkSize (user :: users) [] [] 0%Z = [] :: chunks.
Proof.
  intros Hgt. rewrite pack_cons_flush by exact Hgt. simpl.
  generalize (int_add 0 (size user)) as chunkSize.
  generalize [user] as chunk.
  assert (forall us chunks chunk chunkSize,
    exists rest, pack size maxChunkSize us ([] :: chunks) chunk chunkSize = [] :: rest) as Hpack.
  { induction us as [|u us IH]; intros chunks chunk chunkSize.
    - rewrite pack_nil. destruct chunk; eauto.
    - destruct (Z.lt_ge_cases maxChunkSize (int_add chunkSize (size u))) as [H|H].
      + rewrite pack_cons_flush by exact H. apply (IH (chunks ++ [chunk])).
      + rewrite pack_cons_keep by exact H. apply IH. }
  intros chunk chunkSize. apply (Hpack users []).
Qed.

End Batching.

(** ** The two generations of [splitJSONData] run [pack] *)

Section SplitJSONData.
Context {lib : Library}.

(** A successful run of the second generation read records only, could
    serialize each of them, and batched them as [pack] does. *)
Lemma Gen2_splitJSONData_loop_pack decoder maxChunkSize emailVerify
    chunks chunk chunkSize out :
  Gen2.splitJSONData_loop decoder maxChunkSize emailVerify chunks chunk chunkSize
    = Normal (Ok out) ->
  exists records : list (gmap string JValue),
    decoder = (fun fields => DecOk (Some fields)) <$> records /\
    out = pack serialized_size maxChunkSize
            (with_email_verified emailVerify <$> records) chunks chunk chunkSize.
Proof.
  revert chunks chunk chunkSize.
  induction decoder as [|doc decoder IH]; intros chunks chunk chunkSize Hrun.
  - exists []. split; [reflexivity|]. simpl in *.
    destruct (0 <? length chunk)%nat; congruence.
  - destruct doc as [[fields|]|e]; simpl in Hrun; try discriminate.
    destruct (Marshal (Some (<["email_verified" := JBool emailVerify]> fields)))
      as [userData|e] eqn:Hm; [|discriminate].
    pose proof (serialized_size_Marshal _ _ Hm) as Hsize.
    change (Some _) with (with_email_verified emailVerify fields) in Hsize.
    destruct (int_add chunkSize (len userData) >? maxChunkSize)%Z eqn:Htest;
      apply IH in Hrun as (records & -> & ->);
      exists (fields :: records); (split; [reflexivity|]);
      simpl; rewrite <- Hsize, Htest; reflexivity.
Qed.

(** A successful run of the first generation decoded every line that is
    not blank and batched the records as [pack] does. *)
Lemma Gen1_splitJSONData_loop_pack lines maxChunkSize chunks chunk chunkSize out :
  Gen1.splitJSONData_loop lines maxChunkSize chunks chunk chunkSize = Ok out ->
  exists users : list GoMap,
    Forall2 (fun line user => Unmarshal line = Ok user)
      (filter (fun line => line ≠ EmptyString) (TrimSpace <$> lines)) users /\
    out = pack serialized_size maxChunkSize users chunks chunk chunkSize.
Proof.
  revert chunks chunk chunkSize.
  induction lines as [|line lines IH]; intros chunks chunk chunkSize Hrun.
  - exists []. split; [constructor|]. simpl in *.
    destruct (0 <? length chunk)%nat; congruence.
  - simpl in Hrun. rewrite fmap_cons.
    destruct (String.eqb_spec (TrimSpace line) EmptyString) as [Hblank|Hline].
    + rewrite filter_cons_False by (intros H; now apply H). now apply IH.
    + rewrite filter_cons_True by exact Hline.
      destruct (Unmarshal (TrimSpace line)) as [user|e] eqn:Hu; [|discriminate].
      destruct (Marshal user) as [userData|e] eqn:Hm; [|discriminate].
      pose proof (serialized_size_Marshal _ _ Hm) as Hsize.
      destruct (int_add chunkSize (len userData) >? maxChunkSize)%Z eqn:Htest;
        apply IH in Hrun as (users & Hall & ->);
        exists (user :: users); (split; [now constructor|]);
        simpl; rewrite <- Hsize, Htest; reflexivity.
Qed.

(** An input without records gives no batch at all, in both
    generations. *)
Lemma splitJSONData_empty_input reader maxChunkSize emailVerify :
  NewDecoder reader = [] ->
  Gen2.splitJSONData reader maxChunkSize emailVerify = Normal (Ok []).
Proof. intros H. unfold Gen2.splitJSONData. now rewrite H. Qed.

Lemma Gen1_splitJSONData_empty_input maxChunkSize :
  TrimSpace EmptyString = EmptyString ->
  Gen1.splitJSONData EmptyString maxChunkSize = Ok [].
Proof. intros H. unfold Gen1.splitJSONData. simpl. now rewrite H. Qed.

(** A decoding error anywhere in the stream: whatever came before, no
    batch is returned. *)
Lemma Gen2_splitJSONData_loop_DecErr decoder maxChunkSize emailVerify
    chunks chunk chunkSize e out :
  DecErr e ∈ decoder ->
  Gen2.splitJSONData_loop decoder maxChunkSize emailVerify chunks chunk chunkSize
    ≠ Normal (Ok out).
Proof.
  intros Hin Hrun. apply Gen2_splitJSONData_loop_pack in Hrun as (records & -> & _).
  apply list_elem_of_fmap in Hin as (fields & Heq & _). discriminate.
Qed.

(** Records that serialize, then a decoding error: the error is what the
    loop returns, whatever it had gathered. *)
Lemma Gen2_splitJSONData_loop_fail_fast before e after maxChunkSize emailVerify
    chunks chunk chunkSize :
  Forall (fun fields => exists userData,
            Marshal (with_email_verified emailVerify fields) = Ok userData) before ->
  Gen2.splitJSONData_loop
    (((fun fields => DecOk (Some fields)) <$> before) ++ DecErr e :: after)
    maxChunkSize emailVerify chunks chunk chunkSize
  = Normal (Err ("failed to decode JSON: " +:+ e)).
Proof.
  intros Hbefore. revert chunks chunk chunkSize.
  induction Hbefore as [|fields before [userData Hm] _ IH]; intros chunks chunk chunkSize.
  - reflexivity.
  - simpl. unfold with_email_verified in Hm. rewrite Hm.
    destruct (int_add chunkSize (len userData) >? maxChunkSize)%Z; apply IH.
Qed.

(** A [null] document decodes to the nil map, and the store into it
    panics, whatever follows in the stream. *)
Lemma Gen2_splitJSONData_loop_null decoder maxChunkSize emailVerify
    chunks chunk chunkSize :
  Gen2.splitJSONData_loop (DecOk None :: decoder) maxChunkSize emailVerify
    chunks chunk chunkSize
  = Panicked "assignment to entry in nil map".
Proof. reflexivity. Qed.

End SplitJSONData.

(** A record of the batches put end to end is in one of the batches. *)
Lemma concat_elem_of (chunks : list (list GoMap)) (user : GoMap) :
  user ∈ concat chunks -> exists chunk, chunk ∈ chunks /\ user ∈ chunk.
Proof.
  induction chunks as [|c chunks IH]; simpl; intros Hin; [inversion Hin|].
  apply elem_of_app in Hin as [Hin|Hin].
  - exists c. split; [apply list_elem_of_here | exact Hin].
  - destruct (IH Hin) as (chunk & Hchunk & Huser).
    exists chunk. split; [now apply list_elem_of_further | exact Huser].
Qed.

(** ** Claims about the stream batcher *)

Section BatcherClaims.
Context {lib : Library}.

Lemma Gen2_splitJSONData_pack reader maxChunkSize emailVerify chunks :
  Gen2.splitJSONData reader maxChunkSize emailVerify = Normal (Ok chunks) ->
  exists records : list (gmap string JValue),
    NewDecoder reader = (fun fields => DecOk (Some fields)) <$> records /\
    chunks = pack serialized_size maxChunkSize
               (with_email_verified emailVerify <$> records) [] [] 0%Z /\
    concat chunks = with_email_verified emailVerify <$> records.
Proof.
  intros Hrun. apply Gen2_splitJSONData_loop_pack in Hrun as (records & Hdec & ->).
  exists records. split; [exact Hdec|]. split; [reflexivity|].
  now rewrite pack_concat.
Qed.

Lemma Gen1_splitJSONData_pack data maxChunkSize chunks :
  Gen1.splitJSONData data maxChunkSize = Ok chunks ->
  exists users : list GoMap,
    Forall2 (fun line user => Unmarshal line = Ok user) (record_lines data) users /\
    chunks = pack serialized_size maxChunkSize users [] [] 0%Z /\
    concat chunks = users.
Proof.
  intros Hrun. apply Gen1_splitJSONData_loop_pack in Hrun as (users & Hall & ->).
  exists users. split; [exact Hall|]. split; [reflexivity|].
  now rewrite pack_concat.
Qed.

(** The general shape of the runs with an empty batch: the first record
    alone is over the cap. *)
Lemma Gen2_splitJSONData_first_oversized reader maxChunkSize emailVerify
    fields docs chunks :
  NewDecoder reader = DecOk (Some fields) :: docs ->
  (maxChunkSize <
     int_add 0 (serialized_size (with_email_verified emailVerify fields)))%Z ->
  Gen2.splitJSONData reader maxChunkSize emailVerify = Normal (Ok chunks) ->
  exists rest, chunks = [] :: rest.
Proof.
  intros Hdec Hbig Hrun.
  apply Gen2_splitJSONData_pack in Hrun as (records & Hrecords & -> & _).
  rewrite Hdec in Hrecords. destruct records as [|r records]; [discriminate|].
  injection Hrecords as -> _. rewrite fmap_cons.
  now apply pack_first_oversized.
Qed.

(** C4. When the batcher succeeds, its batches put end to end are the
    records of the stream, one for one and in the order of the stream:
    in the second generation each record as decoded with its
    [email_verified] field set, in the first generation each record as
    decoded from the lines that are not blank. *)
Theorem splitJSONData_concat :
  (forall reader maxChunkSize emailVerify chunks,
     Gen2.splitJSONData reader maxChunkSize emailVerify = Normal (Ok chunks) ->
     exists records : list (gmap string JValue),
       NewDecoder reader = (fun fields => DecOk (Some fields)) <$> records /\
       concat chunks = with_email_verified emailVerify <$> records) /\
  (forall data maxChunkSize chunks,
     Gen1.splitJSONData data maxChunkSize = Ok chunks ->
     Forall2 (fun line user => Unmarshal line = Ok user)
       (record_lines data) (concat chunks)).
Proof.
  split.
  - intros reader maxChunkSize emailVerify chunks Hrun.
    apply Gen2_splitJSONData_pack in Hrun as (records & Hdec & _ & Hcat). eauto.
  - intros data maxChunkSize chunks Hrun.
    apply Gen1_splitJSONData_pack in Hrun as (users & Hall & _ & ->). exact Hall.
Qed.

(** C5. In a successful run whose records serialize to at most [MaxInt]
    bytes in all, a batch of more than one record serializes to at most
    [maxChunkSize] bytes; and every record of the stream that serializes
    to more than [maxChunkSize] bytes is placed in a batch of its own: the
    batch that holds that record alone is among the batches returned, and
    no batch holds it together with another record. *)
Theorem splitJSONData_size_bound reader maxChunkSize emailVerify chunks :
  Gen2.splitJSONData reader maxChunkSize emailVerify = Normal (Ok chunks) ->
  (total_size (concat chunks) <= MaxInt)%Z ->
  (forall chunk, chunk ∈ chunks ->
     ((1 < length chunk)%nat -> (total_size chunk <= maxChunkSize)%Z) /\
     (forall user, user ∈ chunk ->
        (maxChunkSize < serialized_size user)%Z -> chunk = [user])) /\
  exists records : list (gmap string JValue),
    NewDecoder reader = (fun fields => DecOk (Some fields)) <$> records /\
    forall fields, fields ∈ records ->
      (maxChunkSize < serialized_size (with_email_verified emailVerify fields))%Z ->
      [with_email_verified emailVerify fields] ∈ chunks.
Proof.
  intros Hrun Htotal.
  apply Gen2_splitJSONData_pack in Hrun as (records & Hdec & Hpack & Hcat).
  rewrite Hcat in Htotal.
  assert (Forall (fits maxChunkSize) chunks) as Hfits.
  { rewrite Hpack. apply pack_fits.
    - reflexivity.
    - simpl. lia.
    - constructor.
    - right. simpl. lia. }
  rewrite Forall_forall in Hfits. split.
  - intros chunk Hin. specialize (Hfits chunk Hin). split.
    + now apply fits_several.
    + intros user. now apply fits_oversized.
  - exists records. split; [exact Hdec|]. intros fields Hfields Hbig.
    destruct (concat_elem_of chunks (with_email_verified emailVerify fields))
      as (chunk & Hchunk & Huser).
    { rewrite Hcat. now apply list_elem_of_fmap_2. }
    now rewrite <- (fits_oversized _ _ _ (Hfits chunk Hchunk) Huser Hbig).
Qed.

(** A stream with a record that does not decode gives no batch, whatever
    else it holds; and when the documents before the first such record are
    records that serialize, the batcher returns the decoding error. *)
Lemma splitJSONData_fail_fast reader maxChunkSize emailVerify e :
  DecErr e ∈ NewDecoder reader ->
  (forall chunks,
     Gen2.splitJSONData reader maxChunkSize emailVerify ≠ Normal (Ok chunks)) /\
  (forall before after,
     NewDecoder reader =
       ((fun fields => DecOk (Some fields)) <$> before) ++ DecErr e :: after ->
     Forall (fun fields => exists userData,
               Marshal (with_email_verified emailVerify fields) = Ok userData)
       before ->
     Gen2.splitJSONData reader maxChunkSize emailVerify
     = Normal (Err ("failed to decode JSON: " +:+ e))).
Proof.
  intros Hin. split.
  - intros chunks. now apply Gen2_splitJSONData_loop_DecErr with (e := e).
  - intros before after Hdec Hbefore. unfold Gen2.splitJSONData. rewrite Hdec.
    now apply Gen2_splitJSONData_loop_fail_fast.
Qed.

(** C10. In a successful run of the second generation the records of the
    batches are, one for one and in order, the decoded records with
    [email_verified] holding [emailVerify], whatever the input held
    there, and with every other field as decoded. *)
Theorem splitJSONData_email_verified reader maxChunkSize emailVerify chunks :
  Gen2.splitJSONData reader maxChunkSize emailVerify = Normal (Ok chunks) ->
  exists records : list (gmap string JValue),
    NewDecoder reader = (fun fields => DecOk (Some fields)) <$> records /\
    Forall2
      (fun (fields : gmap string JValue) (user : GoMap) =>
         exists out : gmap string JValue,
           user = Some out /\
           out !! "email_verified" = Some (JBool emailVerify) /\
           forall key : string, key ≠ "email_verified" -> out !! key = fields !! key)
      records (concat chunks).
Proof.
  intros Hrun.
  apply Gen2_splitJSONData_pack in Hrun as (records & Hdec & _ & ->).
  exists records. split; [exact Hdec|].
  apply Forall2_fmap_r. clear Hdec.
  induction records as [|fields records IH]; constructor; [|exact IH].
  eexists. split; [reflexivity|]. split.
  - apply lookup_insert_eq.
  - intros key Hkey. now apply lookup_insert_ne.
Qed.

(** The size bound of C5 holds of the first generation as well. *)
Lemma Gen1_splitJSONData_size_bound data maxChunkSize chunks :
  Gen1.splitJSONData data maxChunkSize = Ok chunks ->
  (total_size (concat chunks) <= MaxInt)%Z ->
  forall chunk, chunk ∈ chunks ->
    ((1 < length chunk)%nat -> (total_size chunk <= maxChunkSize)%Z) /\
    (forall user, user ∈ chunk ->
       (maxChunkSize < serialized_size user)%Z -> chunk = [user]).
Proof.
  intros Hrun Htotal chunk Hin.
  apply Gen1_splitJSONData_pack in Hrun as (users & _ & Hpack & Hcat).
  rewrite Hcat in Htotal.
  assert (Forall (fits maxChunkSize) chunks) as Hfits.
  { rewrite Hpack. apply pack_fits.
    - reflexivity.
    - simpl. lia.
    - constructor.
    - right. simpl. lia. }
  rewrite Forall_forall in Hfits. specialize (Hfits chunk Hin). split.
  - now apply fits_several.
  - intros user. now apply fits_oversized.
Qed.

End BatcherClaims.


(** Equations between closed terms are settled by running the model. *)
Ltac run_model :=
  lazymatch goal with
  | |- ?l = ?r => vm_cast_no_check (@eq_refl _ r)
  end.

(** What [TestSplitJSONData] checks, on three sample records and a cap of
    100 bytes: more than one batch, none of them empty. No record of the
    test is over the cap on its own. *)
Example TestSplitJSONData :
  exists chunks,
    Gen2.splitJSONData (lib := Sample.library Sample.three_records Sample.table)
      EmptyString 100%Z true = Normal (Ok chunks) /\
    (1 < length chunks)%nat /\
    Forall (fun chunk : list GoMap => chunk ≠ []) chunks.
Proof.
  exists [[with_email_verified true Sample.user1];
          [with_email_verified true Sample.user2; with_email_verified true Sample.user3]].
  split; [run_model|]. split; [apply le_n|].
  repeat constructor; discriminate.
Qed.

(** C3. The batcher returns an empty batch when the first record alone is
    over the cap: with a cap of ten bytes, one record of 37 bytes comes
    back as an empty batch followed by the batch of that record, in both
    generations. *)
Theorem splitJSONData_empty_batch :
  serialized_size (lib := Sample.library Sample.one_record Sample.table)
    (with_email_verified true Sample.user3) = 37%Z /\
  Gen2.splitJSONData (lib := Sample.library Sample.one_record Sample.table)
    EmptyString 10%Z true
  = Normal (Ok [[]; [with_email_verified true Sample.user3]]) /\
  Gen1.splitJSONData (lib := Sample.library Sample.one_record Sample.table)
    Sample.line1 10%Z
  = Ok [[]; [Some Sample.user1]].
Proof. repeat split; vm_compute; reflexivity. Qed.

Lemma splitJSONData_concat_witness :
  (exists records : list (gmap string JValue),
     NewDecoder (Library := Sample.library Sample.two_records Sample.table) EmptyString
     = (fun fields => DecOk (Some fields)) <$> records /\
     concat [[with_email_verified true Sample.user1;
              with_email_verified true Sample.user2]]
     = with_email_verified true <$> records) /\
  Forall2
    (fun line user =>
       Unmarshal (Library := Sample.library Sample.two_records Sample.table) line
       = Ok user)
    (record_lines (lib := Sample.library Sample.two_records Sample.table)
       Sample.two_lines)
    (concat [[Some Sample.user1; Some Sample.user2]]).
Proof.
  split.
  - apply (proj1 (splitJSONData_concat
                    (lib := Sample.library Sample.two_records Sample.table))
             EmptyString 500000%Z true).
    run_model.
  - apply (proj2 (splitJSONData_concat
                    (lib := Sample.library Sample.two_records Sample.table))
             Sample.two_lines 500000%Z).
    run_model.
Defined.

Lemma splitJSONData_size_bound_witness :
  (forall chunk,
     chunk ∈ [[]; [with_email_verified true Sample.user1];
              [with_email_verified true Sample.user2];
              [with_email_verified true Sample.user3]] ->
     ((1 < length chunk)%nat ->
      (total_size (lib := Sample.library Sample.three_records Sample.table) chunk
       <= 40)%Z) /\
     (forall user, user ∈ chunk ->
        (40 < serialized_size
                (lib := Sample.library Sample.three_records Sample.table) user)%Z ->
        chunk = [user])) /\
  exists records : list (gmap string JValue),
    NewDecoder (Library := Sample.library Sample.three_records Sample.table) EmptyString
    = (fun fields => DecOk (Some fields)) <$> records /\
    forall fields, fields ∈ records ->
      (40 < serialized_size (lib := Sample.library Sample.three_records Sample.table)
              (with_email_verified true fields))%Z ->
      [with_email_verified true fields]
      ∈ [[]; [with_email_verified true Sample.user1];
         [with_email_verified true Sample.user2];
         [with_email_verified true Sample.user3]].
Proof.
  apply (splitJSONData_size_bound
           (lib := Sample.library Sample.three_records Sample.table)
           EmptyString 40%Z true).
  - run_model.
  - vm_compute. discriminate.
Defined.

Example splitJSONData_fail_fast_broken_stream :
  Gen2.splitJSONData (lib := Sample.library Sample.broken_stream Sample.table)
    EmptyString 500000%Z true
  = Normal (Err "failed to decode JSON: unexpected end of JSON input").
Proof.
  refine (proj2 (splitJSONData_fail_fast
            (lib := Sample.library Sample.broken_stream Sample.table)
            EmptyString 500000%Z true "unexpected end of JSON input" _)
            [Sample.user1] [DecOk (Some Sample.user2)] _ _).
  - apply list_elem_of_further, list_elem_of_here.
  - reflexivity.
  - repeat constructor. eexists. reflexivity.
Qed.

(** C9. A malformed record does not always make the batcher fail with the
    decoding error: on a record, a [null] document and a document that
    breaks off, the second generation panics on the store into the nil map
    that [null] decodes to, and returns neither the error nor batches. The
    first generation, given the same three documents as lines, returns its
    parse error. *)
Theorem splitJSONData_malformed_panics :
  DecErr "unexpected end of JSON input"
  ∈ NewDecoder
      (Library := Sample.library Sample.null_then_broken Sample.table_with_null)
      EmptyString /\
  Gen2.splitJSONData
    (lib := Sample.library Sample.null_then_broken Sample.table_with_null)
    EmptyString 500000%Z true
  = Panicked "assignment to entry in nil map" /\
  Gen1.splitJSONData
    (lib := Sample.library Sample.null_then_broken Sample.table_with_null)
    Sample.null_then_broken_lines 500000%Z
  = Err "failed to parse JSON: invalid character".
Proof.
  split; [|split].
  - do 2 apply list_elem_of_further. apply list_elem_of_here.
  - reflexivity.
  - vm_compute. reflexivity.
Qed.

Lemma splitJSONData_email_verified_witness :
  exists records : list (gmap string JValue),
    NewDecoder (Library := Sample.library Sample.two_records Sample.table) EmptyString
    = (fun fields => DecOk (Some fields)) <$> records /\
    Forall2
      (fun (fields : gmap string JValue) (user : GoMap) =>
         exists out : gmap string JValue,
           user = Some out /\
           out !! "email_verified" = Some (JBool true) /\
           forall key : string, key ≠ "email_verified" -> out !! key = fields !! key)
      records
      (concat [[with_email_verified true Sample.user1;
                with_email_verified true Sample.user2]]).
Proof.
  apply (splitJSONData_email_verified
           (lib := Sample.library Sample.two_records Sample.table)
           EmptyString 500000%Z true).
  run_model.
Defined.

(** ** Sequencing *)

Lemma bind_ret {A B} (a : A) (k : A -> M B) (w : World) :
  bind (ret a) k w = k a w.
Proof. reflexivity. Qed.

Lemma bind_call {A B} (answer : World -> A) (ev : Event) (k : A -> M B) (w : World) :
  bind (call answer ev) k w = k (answer w) (w ++ [ev]).
Proof. reflexivity. Qed.

Lemma bind_panic {A B} (msg : string) (k : A -> M B) (w : World) :
  bind (panic msg) k w = (Panicked msg, w).
Proof. reflexivity. Qed.

(** ** Logs *)

Lemma sleeps_app (w1 w2 : World) : sleeps (w1 ++ w2) = sleeps w1 ++ sleeps w2.
Proof. apply omap_app. Qed.

Lemma reads_app (w1 w2 : World) : reads (w1 ++ w2) = reads w1 ++ reads w2.
Proof. apply omap_app. Qed.

Lemma imports_app (w1 w2 : World) : imports (w1 ++ w2) = imports w1 ++ imports w2.
Proof. apply omap_app. Qed.

Lemma sleeps_pending_rounds (jobID : string) (ds : list Duration) :
  sleeps (pending_rounds jobID ds) = ds.
Proof. induction ds as [|d ds IH]; [reflexivity | simpl; now f_equal]. Qed.

Lemma reads_sleep_read_rounds (n : nat) (d : Duration) (jobID : string) :
  length (reads (sleep_read_rounds n d jobID)) = n.
Proof. induction n as [|n IH]; [reflexivity | simpl; now f_equal]. Qed.

Lemma reads_read_sleep_rounds (n : nat) (d : Duration) (jobID : string) :
  length (reads (read_sleep_rounds n d jobID)) = n.
Proof. induction n as [|n IH]; [reflexivity | simpl; now f_equal]. Qed.

(** ** The import poller of the second generation *)

Section Gen2Poller.
Context {lib : Library}.
Variables (m : Management) (jobID : string).

(** One round of the loop, case by case. *)
Lemma checkImportJobStatus_loop_S fuel interval maxInterval totalWait maxWait w :
  Gen2.checkImportJobStatus_loop (S fuel) m jobID interval maxInterval totalWait maxWait w
  = if (totalWait <? maxWait)%Z then
      match answer_Read m w jobID with
      | Err e =>
          (Normal (Some ("failed to read job status: " +:+ e)), w ++ [EvJobRead jobID])
      | Ok job =>
          match Status job with
          | None =>
              (Panicked "invalid memory address or nil pointer dereference",
               w ++ [EvJobRead jobID])
          | Some status =>
              if String.eqb status "completed"
              then (Normal None, w ++ [EvJobRead jobID])
              else if String.eqb status "failed"
              then (Normal (Some ("import job " +:+ jobID +:+ " failed")),
                    w ++ [EvJobRead jobID])
              else Gen2.checkImportJobStatus_loop fuel m jobID
                     (next_interval interval maxInterval) maxInterval
                     (Duration_add totalWait interval) maxWait
                     (w ++ [EvJobRead jobID; EvSleep interval])
          end
      end
    else (Normal (Some ("import job " +:+ jobID +:+ " timed out")), w).
Proof.
  simpl. destruct (totalWait <? maxWait)%Z; [|reflexivity].
  unfold bind, Job_Read, call. destruct (answer_Read m w jobID) as [job|e]; [|reflexivity].
  destruct (Status job) as [status|]; [|reflexivity]. simpl.
  destruct (String.eqb status "completed"); [reflexivity|].
  destruct (String.eqb status "failed"); [reflexivity|].
  unfold time_Sleep, call. now rewrite <- app_assoc.
Qed.

(** The sleeps of a run are the first ones of the plan. *)
Lemma checkImportJobStatus_loop_sleeps fuel interval maxInterval totalWait maxWait
    w res w' :
  Gen2.checkImportJobStatus_loop fuel m jobID interval maxInterval totalWait maxWait w
    = (res, w') ->
  exists k, sleeps w' = sleeps w ++ take k (plan fuel interval maxInterval totalWait maxWait).
Proof.
  revert interval totalWait w.
  induction fuel as [|fuel IH]; intros interval totalWait w Hrun.
  - injection Hrun as _ <-. exists 0%nat. now rewrite app_nil_r.
  - rewrite checkImportJobStatus_loop_S in Hrun. simpl.
    assert (forall r, (r, w ++ [EvJobRead jobID]) = (res, w') ->
              exists k, sleeps w' = sleeps w ++ take k
                (interval :: plan fuel (next_interval interval maxInterval) maxInterval
                               (Duration_add totalWait interval) maxWait)) as Hstop.
    { intros r Hr. injection Hr as _ <-. exists 0%nat.
      rewrite sleeps_app. simpl. reflexivity. }
    destruct (totalWait <? maxWait)%Z.
    + destruct (answer_Read m w jobID) as [job|e]; [|exact (Hstop _ Hrun)].
      destruct (Status job) as [status|]; [|exact (Hstop _ Hrun)].
      destruct (String.eqb status "completed"); [exact (Hstop _ Hrun)|].
      destruct (String.eqb status "failed"); [exact (Hstop _ Hrun)|].
      apply IH in Hrun as [k Hk]. exists (S k).
      rewrite Hk, sleeps_app. simpl. now rewrite <- app_assoc.
    + injection Hrun as _ <-. exists 0%nat. now rewrite app_nil_r.
Qed.

(** A run that is out of fuel has slept as many times as it had fuel. *)
Lemma checkImportJobStatus_loop_Diverging fuel interval maxInterval totalWait maxWait
    w w' :
  Gen2.checkImportJobStatus_loop fuel m jobID interval maxInterval totalWait maxWait w
    = (Diverging, w') ->
  length (plan fuel interval maxInterval totalWait maxWait) = fuel.
Proof.
  revert interval totalWait w.
  induction fuel as [|fuel IH]; intros interval totalWait w Hrun; [reflexivity|].
  rewrite checkImportJobStatus_loop_S in Hrun. simpl.
  destruct (totalWait <? maxWait)%Z; [|discriminate].
  destruct (answer_Read m w jobID) as [job|e]; [|discriminate].
  destruct (Status job) as [status|]; [|discriminate].
  destruct (String.eqb status "completed"); [discriminate|].
  destruct (String.eqb status "failed"); [discriminate|].
  simpl. f_equal. now apply IH in Hrun.
Qed.

(** More fuel does not change a run that ended. *)
Lemma checkImportJobStatus_loop_more_fuel fuel extra interval maxInterval totalWait
    maxWait w res w' :
  Gen2.checkImportJobStatus_loop fuel m jobID interval maxInterval totalWait maxWait w
    = (res, w') ->
  res ≠ Diverging ->
  Gen2.checkImportJobStatus_loop (fuel + extra) m jobID interval maxInterval totalWait
    maxWait w = (res, w').
Proof.
  revert interval totalWait w.
  induction fuel as [|fuel IH]; intros interval totalWait w Hrun Hres.
  - injection Hrun as <- _. congruence.
  - change (S fuel + extra)%nat with (S (fuel + extra)).
    rewrite checkImportJobStatus_loop_S in *.
    destruct (totalWait <? maxWait)%Z; [|exact Hrun].
    destruct (answer_Read m w jobID) as [job|e]; [|exact Hrun].
    destruct (Status job) as [status|]; [|exact Hrun].
    destruct (String.eqb status "completed"); [exact Hrun|].
    destruct (String.eqb status "failed"); [exact Hrun|].
    now apply IH.
Qed.

(** [checkImportJobStatus] is the loop from the four durations it sets. *)
Lemma checkImportJobStatus_unfold w :
  Gen2.checkImportJobStatus m jobID w
  = Gen2.checkImportJobStatus_loop 61 m jobID
      (5 * Second)%Z (30 * Second)%Z (0 * Second)%Z (5 * Minute)%Z w.
Proof. unfold Gen2.checkImportJobStatus. reflexivity. Qed.

(** The plan of the function's four durations is [schedule], and the
    fuel of [checkImportJobStatus] is more than its ten rounds. *)
Lemma plan_schedule :
  plan 61 (5 * Second)%Z (30 * Second)%Z (0 * Second)%Z (5 * Minute)%Z = schedule.
Proof. vm_compute. reflexivity. Qed.

Lemma checkImportJobStatus_sleeps w res w' :
  Gen2.checkImportJobStatus m jobID w = (res, w') ->
  exists k, sleeps w' = sleeps w ++ take k schedule.
Proof.
  intros Hrun. rewrite checkImportJobStatus_unfold in Hrun.
  apply checkImportJobStatus_loop_sleeps in Hrun.
  now rewrite plan_schedule in Hrun.
Qed.

(** [checkImportJobStatus] returns or panics: the fuel of the model is
    never what ends it. *)
Lemma checkImportJobStatus_ends w :
  (Gen2.checkImportJobStatus m jobID w).1 ≠ Diverging.
Proof.
  destruct (Gen2.checkImportJobStatus m jobID w) as [res w'] eqn:Hrun. simpl.
  intros ->. rewrite checkImportJobStatus_unfold in Hrun.
  apply checkImportJobStatus_loop_Diverging in Hrun.
  rewrite plan_schedule in Hrun. discriminate.
Qed.

(** Whatever the tenant answers, the sleeps of one poll never go down and
    none is over forty seconds. *)
Lemma schedule_sorted : StronglySorted Z.le schedule.
Proof.
  cbv [schedule fmap list_fmap Second].
  repeat first [apply SSorted_nil | apply SSorted_cons
               | apply Forall_nil_2 | apply Forall_cons_2];
    lia.
Qed.

Lemma schedule_bound : Forall (fun d => (5 * Second <= d <= 40 * Second)%Z) schedule.
Proof.
  cbv [schedule fmap list_fmap Second].
  repeat first [apply Forall_nil_2 | apply Forall_cons_2]; lia.
Qed.

(** The whole plan is 315 seconds of sleep, fifteen more than the five
    minutes of [maxWait]. *)
Lemma schedule_total : foldr Z.add 0%Z schedule = (5 * Minute + 15 * Second)%Z.
Proof. reflexivity. Qed.

Lemma checkImportJobStatus_sleeps_sorted w res w' :
  Gen2.checkImportJobStatus m jobID w = (res, w') ->
  exists ds, sleeps w' = sleeps w ++ ds /\
             StronglySorted Z.le ds /\
             Forall (fun d => (5 * Second <= d <= 40 * Second)%Z) ds.
Proof.
  intros Hrun. apply checkImportJobStatus_sleeps in Hrun as [k Hk].
  exists (take k schedule). split; [exact Hk|]. split.
  - pose proof schedule_sorted as Hs. rewrite <- (take_drop k schedule) in Hs.
    now apply StronglySorted_app_1_l in Hs.
  - apply Forall_take, schedule_bound.
Qed.

(** A read error ends the poll at once: one read, no sleep, the error
    returned. *)
Lemma checkImportJobStatus_read_error w e :
  answer_Read m w jobID = Err e ->
  Gen2.checkImportJobStatus m jobID w
  = (Normal (Some ("failed to read job status: " +:+ e)), w ++ [EvJobRead jobID]).
Proof.
  intros Ha. rewrite checkImportJobStatus_unfold.
  rewrite checkImportJobStatus_loop_S. now rewrite Ha.
Qed.

(** A job read as failed ends the poll at once with an error. *)
Lemma checkImportJobStatus_failed w job :
  answer_Read m w jobID = Ok job -> Status job = Some "failed" ->
  Gen2.checkImportJobStatus m jobID w
  = (Normal (Some ("import job " +:+ jobID +:+ " failed")), w ++ [EvJobRead jobID]).
Proof.
  intros Ha Hs. rewrite checkImportJobStatus_unfold.
  rewrite checkImportJobStatus_loop_S. now rewrite Ha, Hs.
Qed.

(** On a job that stays pending the loop follows its plan to the end. *)
Lemma checkImportJobStatus_loop_pending fuel interval maxInterval totalWait maxWait w :
  always_pending m jobID ->
  (length (plan fuel interval maxInterval totalWait maxWait) < fuel)%nat ->
  Gen2.checkImportJobStatus_loop fuel m jobID interval maxInterval totalWait maxWait w
  = (Normal (Some ("import job " +:+ jobID +:+ " timed out")),
     w ++ pending_rounds jobID (plan fuel interval maxInterval totalWait maxWait)).
Proof.
  intros Hpending. revert interval totalWait w.
  induction fuel as [|fuel IH]; intros interval totalWait w Hlen; [simpl in Hlen; lia|].
  rewrite checkImportJobStatus_loop_S. simpl in *.
  destruct (totalWait <? maxWait)%Z; [|now rewrite app_nil_r].
  destruct (Hpending w) as (job & status & -> & -> & -> & ->).
  simpl in Hlen. rewrite IH by lia.
  unfold pending_rounds. simpl. now rewrite <- app_assoc.
Qed.

(** The poll of a job that stays pending times out after the ten rounds
    of [schedule]. *)
Lemma checkImportJobStatus_pending w :
  always_pending m jobID ->
  Gen2.checkImportJobStatus m jobID w
  = (Normal (Some ("import job " +:+ jobID +:+ " timed out")),
     w ++ pending_rounds jobID schedule).
Proof.
  intros Hpending. rewrite checkImportJobStatus_unfold.
  rewrite checkImportJobStatus_loop_pending.
  - now rewrite plan_schedule.
  - exact Hpending.
  - rewrite plan_schedule. vm_compute. lia.
Qed.

End Gen2Poller.

(** ** The import poller of the first generation *)

Section Gen1Poller.
Context {lib : Library}.
Variables (m : Management) (jobID : string).

(** One round of the loop, case by case. *)
Lemma Gen1_checkImportJobStatus_S fuel w :
  Gen1.checkImportJobStatus (S fuel) m jobID w
  = match answer_Read m w jobID with
    | Err e =>
        (Normal (Some ("failed to read job status: " +:+ e)), w ++ [EvJobRead jobID])
    | Ok job =>
        match Status job with
        | None =>
            (Panicked "invalid memory address or nil pointer dereference",
             w ++ [EvJobRead jobID])
        | Some status =>
            if String.eqb status "completed"
            then (Normal None, w ++ [EvJobRead jobID])
            else if String.eqb status "failed"
            then (Normal (Some ("import job " +:+ jobID +:+ " failed")),
                  w ++ [EvJobRead jobID])
            else Gen1.checkImportJobStatus fuel m jobID
                   (w ++ [EvJobRead jobID; EvSleep (10 * Second)%Z])
        end
    end.
Proof.
  simpl. unfold bind, Job_Read, call.
  destruct (answer_Read m w jobID) as [job|e]; [|reflexivity].
  destruct (Status job) as [status|]; [|reflexivity]. simpl.
  destruct (String.eqb status "completed"); [reflexivity|].
  destruct (String.eqb status "failed"); [reflexivity|].
  unfold time_Sleep, call. now rewrite <- app_assoc.
Qed.

(** On a job that stays pending the poll goes on for as long as it is
    followed: a read and a sleep of ten seconds per round, no return. *)
Lemma Gen1_checkImportJobStatus_pending fuel w :
  always_pending m jobID ->
  Gen1.checkImportJobStatus fuel m jobID w
  = (Diverging, w ++ read_sleep_rounds fuel (10 * Second)%Z jobID).
Proof.
  intros Hpending. revert w.
  induction fuel as [|fuel IH]; intros w.
  - simpl. unfold out_of_fuel. now rewrite app_nil_r.
  - rewrite Gen1_checkImportJobStatus_S.
    destruct (Hpending w) as (job & status & -> & -> & -> & ->).
    rewrite IH. simpl. now rewrite <- app_assoc.
Qed.

Lemma Gen1_checkImportJobStatus_read_error fuel w e :
  answer_Read m w jobID = Err e ->
  Gen1.checkImportJobStatus (S fuel) m jobID w
  = (Normal (Some ("failed to read job status: " +:+ e)), w ++ [EvJobRead jobID]).
Proof. intros Ha. rewrite Gen1_checkImportJobStatus_S. now rewrite Ha. Qed.

End Gen1Poller.

(** ** The polling loop of the export command *)

Section ExportLoop.
Context {lib : Library}.
Variables (m : Management) (h : Host) (jobID : string).

(** [checkJobStatus] reports every read that is not a completed job as an
    error: a failed job, a pending job and a read that failed alike. *)
Lemma checkJobStatus_not_completed w :
  never_completed m jobID ->
  exists e, Gen2.checkJobStatus m jobID w = (Normal (Err e), w ++ [EvJobRead jobID]).
Proof.
  intros Hnever. specialize (Hnever w).
  unfold Gen2.checkJobStatus, bind, Job_Read, call.
  destruct (answer_Read m w jobID) as [job|e]; [|eauto].
  destruct Hnever as (status & -> & Hstatus). simpl. rewrite Hstatus. eauto.
Qed.

(** The two generations have the same [checkJobStatus] and the same
    loop. *)
Lemma Gen1_checkJobStatus_eq : Gen1.checkJobStatus = Gen2.checkJobStatus.
Proof. reflexivity. Qed.

Lemma Gen1_exportCmd_Run_loop_eq fuel :
  Gen1.exportCmd_Run_loop fuel m h jobID = Gen2.exportCmd_Run_loop fuel m h jobID.
Proof. induction fuel as [|fuel IH]; [reflexivity | simpl; now rewrite IH]. Qed.

(** While the job is not read as completed the loop goes on: a sleep of
    ten seconds and a read per round, no return. *)
Lemma exportCmd_Run_loop_never_completed fuel w :
  never_completed m jobID ->
  Gen2.exportCmd_Run_loop fuel m h jobID w
  = (Diverging, w ++ sleep_read_rounds fuel (10 * Second)%Z jobID).
Proof.
  intros Hnever. revert w.
  induction fuel as [|fuel IH]; intros w.
  - simpl. unfold out_of_fuel. now rewrite app_nil_r.
  - simpl. unfold bind at 1. unfold time_Sleep, call. unfold bind at 1.
    destruct (checkJobStatus_not_completed (w ++ [EvSleep (10 * Second)%Z]) Hnever)
      as [e ->].
    rewrite IH. now rewrite <- !app_assoc.
Qed.

End ExportLoop.

(** ** The loop of the import command *)

Section ImportLoop.
Context {lib : Library}.
Variable m : Management.

Lemma checkImportJobStatus_loop_imports jobID fuel interval maxInterval totalWait
    maxWait w res w' :
  Gen2.checkImportJobStatus_loop fuel m jobID interval maxInterval totalWait maxWait w
    = (res, w') ->
  imports w' = imports w.
Proof.
  revert interval totalWait w.
  induction fuel as [|fuel IH]; intros interval totalWait w Hrun.
  - now injection Hrun as _ <-.
  - rewrite checkImportJobStatus_loop_S in Hrun.
    assert (forall r, (r, w ++ [EvJobRead jobID]) = (res, w') -> imports w' = imports w)
      as Hstop.
    { intros r Hr. injection Hr as _ <-. rewrite imports_app. simpl. apply app_nil_r. }
    destruct (totalWait <? maxWait)%Z; [|now injection Hrun as _ <-].
    destruct (answer_Read m w jobID) as [job|e]; [|exact (Hstop _ Hrun)].
    destruct (Status job) as [status|]; [|exact (Hstop _ Hrun)].
    destruct (String.eqb status "completed"); [exact (Hstop _ Hrun)|].
    destruct (String.eqb status "failed"); [exact (Hstop _ Hrun)|].
    apply IH in Hrun. rewrite Hrun, imports_app. simpl. apply app_nil_r.
Qed.


(** [importUsersChunk], case by case on the answer to the import call. *)
Lemma importUsersChunk_eq users w :
  Gen2.importUsersChunk m users w
  = match answer_ImportUsers m w users with
    | Err e =>
        (Normal (Some ("failed to import users: " +:+ e)),
         w ++ [EvJobImportUsers users])
    | Ok None =>
        (Panicked "invalid memory address or nil pointer dereference",
         w ++ [EvJobImportUsers users])
    | Ok (Some jobID) =>
        Gen2.checkImportJobStatus m jobID (w ++ [EvJobImportUsers users])
    end.
Proof.
  unfold Gen2.importUsersChunk, Job_ImportUsers. rewrite bind_call.
  destruct (answer_ImportUsers m w users) as [[jobID|]|e]; [| reflexivity | reflexivity].
  unfold deref. now rewrite bind_ret.
Qed.

(** One batch: the import is started once, whatever follows. *)
Lemma importUsersChunk_imports users w res w' :
  Gen2.importUsersChunk m users w = (res, w') ->
  imports w' = imports w ++ [users].
Proof.
  rewrite importUsersChunk_eq. intros Hrun.
  destruct (answer_ImportUsers m w users) as [[jobID|]|e].
  - rewrite checkImportJobStatus_unfold in Hrun.
    apply checkImportJobStatus_loop_imports in Hrun.
    rewrite Hrun, imports_app. reflexivity.
  - injection Hrun as _ <-. now rewrite imports_app.
  - injection Hrun as _ <-. now rewrite imports_app.
Qed.


(** One batch never leaves the model without an answer. *)
Lemma importUsersChunk_ends users w :
  (Gen2.importUsersChunk m users w).1 ≠ Diverging.
Proof.
  rewrite importUsersChunk_eq.
  destruct (answer_ImportUsers m w users) as [[jobID|]|e]; [| discriminate | discriminate].
  apply checkImportJobStatus_ends.
Qed.

(** A job read as failed, or one that stays pending until the wait is
    over, makes [importUsersChunk] return an error. *)
Lemma importUsersChunk_failed users w jobID job :
  answer_ImportUsers m w users = Ok (Some jobID) ->
  answer_Read m (w ++ [EvJobImportUsers users]) jobID = Ok job ->
  Status job = Some "failed" ->
  Gen2.importUsersChunk m users w
  = (Normal (Some ("import job " +:+ jobID +:+ " failed")),
     w ++ [EvJobImportUsers users; EvJobRead jobID]).
Proof.
  intros Hi Hr Hs. rewrite importUsersChunk_eq, Hi.
  rewrite (checkImportJobStatus_failed _ _ _ _ Hr Hs). now rewrite <- app_assoc.
Qed.

Lemma importUsersChunk_timed_out users w jobID :
  answer_ImportUsers m w users = Ok (Some jobID) ->
  always_pending m jobID ->
  Gen2.importUsersChunk m users w
  = (Normal (Some ("import job " +:+ jobID +:+ " timed out")),
     w ++ EvJobImportUsers users :: pending_rounds jobID schedule).
Proof.
  intros Hi Hp. rewrite importUsersChunk_eq, Hi.
  rewrite (checkImportJobStatus_pending _ _ _ Hp). now rewrite <- app_assoc.
Qed.

(** One round of the loop over the batches. *)
Lemma importCmd_Run_loop_cons chunk chunks w :
  Gen2.importCmd_Run_loop m (chunk :: chunks) w
  = match Gen2.importUsersChunk m chunk w with
    | (Normal None, w1) => Gen2.importCmd_Run_loop m chunks w1
    | (Normal (Some _), w1) => (Exited 1, w1)
    | (Panicked msg, w1) => (Panicked msg, w1)
    | (Exited code, w1) => (Exited code, w1)
    | (Diverging, w1) => (Diverging, w1)
    end.
Proof.
  simpl. unfold bind at 1.
  destruct (Gen2.importUsersChunk m chunk w) as [[[e|]| | |] w1]; reflexivity.
Qed.

(** The imports started are the first batches, in their order. *)
Lemma importCmd_Run_loop_prefix chunks w res w' :
  Gen2.importCmd_Run_loop m chunks w = (res, w') ->
  exists k, imports w' = imports w ++ take k chunks.
Proof.
  revert w. induction chunks as [|chunk chunks IH]; intros w Hrun.
  - injection Hrun as _ <-. exists 0%nat. now rewrite app_nil_r.
  - rewrite importCmd_Run_loop_cons in Hrun.
    destruct (Gen2.importUsersChunk m chunk w) as [r w1] eqn:Hchunk.
    apply importUsersChunk_imports in Hchunk.
    destruct r as [[e|]| | |];
      try (injection Hrun as _ <-; exists 1%nat; exact Hchunk).
    apply IH in Hrun as [k Hk]. exists (S k).
    rewrite Hk, Hchunk. simpl. now rewrite <- app_assoc.
Qed.

(** A loop that came to its end started the import of every batch. *)
Lemma importCmd_Run_loop_done chunks w w' :
  Gen2.importCmd_Run_loop m chunks w = (Normal tt, w') ->
  imports w' = imports w ++ chunks.
Proof.
  revert w. induction chunks as [|chunk chunks IH]; intros w Hrun.
  - injection Hrun as <-. now rewrite app_nil_r.
  - rewrite importCmd_Run_loop_cons in Hrun.
    destruct (Gen2.importUsersChunk m chunk w) as [r w1] eqn:Hchunk.
    apply importUsersChunk_imports in Hchunk.
    destruct r as [[e|]| | |]; try discriminate.
    apply IH in Hrun. rewrite Hrun, Hchunk. now rewrite <- app_assoc.
Qed.



End ImportLoop.

(** ** The export command *)

Section ExportCommand.
Variables (m : Management) (h : Host).

(** The export command, case by case on the answer to the export call:
    the second generation returns when the export cannot be started, the
    first exits. *)
Lemma exportCmd_Run_eq fuel w :
  Gen2.exportCmd_Run fuel m h w
  = match answer_ExportUsers m w with
    | Err _ => (Normal tt, w ++ [EvJobExportUsers])
    | Ok None =>
        (Panicked "invalid memory address or nil pointer dereference",
         w ++ [EvJobExportUsers])
    | Ok (Some jobID) => Gen2.exportCmd_Run_loop fuel m h jobID (w ++ [EvJobExportUsers])
    end.
Proof.
  unfold Gen2.exportCmd_Run, Gen2.exportUsers, Job_ExportUsers, bind, call.
  destruct (answer_ExportUsers m w) as [[jobID|]|e]; reflexivity.
Qed.

Lemma Gen1_exportCmd_Run_eq fuel w :
  Gen1.exportCmd_Run fuel m h w
  = match answer_ExportUsers m w with
    | Err _ => (Exited 1, w ++ [EvJobExportUsers])
    | Ok None =>
        (Panicked "invalid memory address or nil pointer dereference",
         w ++ [EvJobExportUsers])
    | Ok (Some jobID) => Gen2.exportCmd_Run_loop fuel m h jobID (w ++ [EvJobExportUsers])
    end.
Proof.
  unfold Gen1.exportCmd_Run, Gen1.exportUsers, Job_ExportUsers, bind, call.
  destruct (answer_ExportUsers m w) as [[jobID|]|e]; [| reflexivity | reflexivity].
  simpl. now rewrite Gen1_exportCmd_Run_loop_eq.
Qed.

(** An export job that is never read as completed keeps both generations
    of the command polling, whatever the reads say instead. *)
Lemma exportCmd_Run_never_completed fuel w jobID :
  answer_ExportUsers m w = Ok (Some jobID) ->
  never_completed m jobID ->
  Gen2.exportCmd_Run fuel m h w
  = (Diverging, w ++ EvJobExportUsers :: sleep_read_rounds fuel (10 * Second)%Z jobID) /\
  Gen1.exportCmd_Run fuel m h w
  = (Diverging, w ++ EvJobExportUsers :: sleep_read_rounds fuel (10 * Second)%Z jobID).
Proof.
  intros Hexport Hnever.
  rewrite exportCmd_Run_eq, Gen1_exportCmd_Run_eq, Hexport.
  rewrite (exportCmd_Run_loop_never_completed _ _ _ _ _ Hnever).
  now rewrite <- app_assoc.
Qed.

End ExportCommand.

(** ** The sample tenants *)

Lemma tenant_with_status_never_completed (status jobID : string) :
  String.eqb status "completed" = false ->
  never_completed (Sample.tenant_with_status status) jobID.
Proof. intros Hs w. simpl. eauto. Qed.

Lemma tenant_unreachable_never_completed (jobID : string) :
  never_completed Sample.tenant_unreachable jobID.
Proof. intros w. exact I. Qed.

Lemma tenant_pending_always_pending (jobID : string) :
  always_pending (Sample.tenant_with_status "pending") jobID.
Proof. intros w. simpl. eexists _, _. repeat split. Qed.

(** ** Claims about polling and the import loop *)

(** C1. The export command has no way out of its polling loop but a
    completed job: on a tenant that reports the export job as [failed] at
    every read, whatever the number of rounds followed, both generations
    are still polling, having slept ten seconds and read the job once per
    round; and so they are on a job that stays pending, however long the
    total wait. *)
Theorem exportCmd_Run_never_fails (fuel : nat) :
  Gen2.exportCmd_Run fuel (Sample.tenant_with_status "failed") Sample.host []
  = (Diverging, EvJobExportUsers :: sleep_read_rounds fuel (10 * Second)%Z "job_1") /\
  Gen1.exportCmd_Run fuel (Sample.tenant_with_status "failed") Sample.host []
  = (Diverging, EvJobExportUsers :: sleep_read_rounds fuel (10 * Second)%Z "job_1") /\
  Gen2.exportCmd_Run fuel (Sample.tenant_with_status "pending") Sample.host []
  = (Diverging, EvJobExportUsers :: sleep_read_rounds fuel (10 * Second)%Z "job_1") /\
  Gen1.exportCmd_Run fuel (Sample.tenant_with_status "pending") Sample.host []
  = (Diverging, EvJobExportUsers :: sleep_read_rounds fuel (10 * Second)%Z "job_1").
Proof.
  destruct (exportCmd_Run_never_completed
              (Sample.tenant_with_status "failed") Sample.host fuel [] "job_1")
    as [Hfailed2 Hfailed1];
    [reflexivity | now apply tenant_with_status_never_completed |].
  destruct (exportCmd_Run_never_completed
              (Sample.tenant_with_status "pending") Sample.host fuel [] "job_1")
    as [Hpending2 Hpending1];
    [reflexivity | now apply tenant_with_status_never_completed |].
  auto.
Qed.

(** C2. On a job that stays pending the second-generation poller sleeps
    5, 10, 20 and then 40 seconds, seven times: from the fourth sleep on
    the applied interval is above the 30 seconds of [maxInterval]. *)
Theorem checkImportJobStatus_interval_over_ceiling :
  sleeps (Gen2.checkImportJobStatus (Sample.tenant_with_status "pending") "job_1" []).2
  = schedule /\
  schedule !! 3%nat = Some (40 * Second)%Z /\
  (30 * Second < 40 * Second)%Z.
Proof.
  rewrite (checkImportJobStatus_pending _ _ _ (tenant_pending_always_pending "job_1")).
  cbn [snd]. rewrite sleeps_app, sleeps_pending_rounds. repeat split.
Qed.

(** C6. The first-generation poller has no ceiling on its wait: on a job
    that stays pending it is still polling after any number of rounds,
    each a read and a sleep of ten seconds. The second generation, on the
    same job, returns the time-out error after the ten rounds of
    [schedule], 315 seconds of sleep for a ceiling of 300. *)
Theorem Gen1_checkImportJobStatus_never_times_out (fuel : nat) :
  Gen1.checkImportJobStatus fuel (Sample.tenant_with_status "pending") "job_1" []
  = (Diverging, read_sleep_rounds fuel (10 * Second)%Z "job_1") /\
  Gen2.checkImportJobStatus (Sample.tenant_with_status "pending") "job_1" []
  = (Normal (Some "import job job_1 timed out"), pending_rounds "job_1" schedule) /\
  length schedule = 10%nat /\
  foldr Z.add 0%Z schedule = (5 * Minute + 15 * Second)%Z.
Proof.
  split; [|split; [|split; reflexivity]].
  - now rewrite (Gen1_checkImportJobStatus_pending _ _ fuel []
                   (tenant_pending_always_pending "job_1")).
  - now rewrite (checkImportJobStatus_pending _ _ [] (tenant_pending_always_pending "job_1")).
Qed.

(** C8. The export command does not hand a read error on: on a tenant
    whose status endpoint fails at every read, whatever the number of
    rounds followed, both generations are still polling, one read per
    round, each after a sleep of ten seconds. The import pollers return
    the error of the first read. *)
Theorem exportCmd_Run_retries_read_errors (fuel : nat) :
  Gen2.exportCmd_Run fuel Sample.tenant_unreachable Sample.host []
  = (Diverging, EvJobExportUsers :: sleep_read_rounds fuel (10 * Second)%Z "job_1") /\
  Gen1.exportCmd_Run fuel Sample.tenant_unreachable Sample.host []
  = (Diverging, EvJobExportUsers :: sleep_read_rounds fuel (10 * Second)%Z "job_1") /\
  Gen2.checkImportJobStatus Sample.tenant_unreachable "job_1" []
  = (Normal (Some "failed to read job status: connection reset by peer"),
     [EvJobRead "job_1"]) /\
  Gen1.checkImportJobStatus (S fuel) Sample.tenant_unreachable "job_1" []
  = (Normal (Some "failed to read job status: connection reset by peer"),
     [EvJobRead "job_1"]).
Proof.
  destruct (exportCmd_Run_never_completed
              Sample.tenant_unreachable Sample.host fuel [] "job_1")
    as [Hexport2 Hexport1];
    [reflexivity | apply tenant_unreachable_never_completed |].
  split; [exact Hexport2|]. split; [exact Hexport1|]. split.
  - now rewrite (checkImportJobStatus_read_error _ _ [] "connection reset by peer").
  - now rewrite (Gen1_checkImportJobStatus_read_error _ _ fuel [] "connection reset by peer").
Qed.

(** * Further properties of the program *)

(** ** Polls that end *)

Lemma pending_rounds_app (jobID : string) (ds1 ds2 : list Duration) :
  pending_rounds jobID (ds1 ++ ds2) = pending_rounds jobID ds1 ++ pending_rounds jobID ds2.
Proof. unfold pending_rounds. apply bind_app. Qed.

Lemma reads_pending_rounds (jobID : string) (ds : list Duration) :
  length (reads (pending_rounds jobID ds)) = length ds.
Proof. induction ds as [|d ds IH]; [reflexivity | simpl; now f_equal]. Qed.

Lemma imports_pending_rounds (jobID : string) (ds : list Duration) :
  imports (pending_rounds jobID ds) = [].
Proof. induction ds as [|d ds IH]; [reflexivity | exact IH]. Qed.


Lemma pending_during_cons (m : Management) (jobID : string) (w : World)
    (d : Duration) (ds : list Duration) :
  pending_during m jobID w (d :: ds) ->
  pending_answer (answer_Read m w jobID) /\
  pending_during m jobID (w ++ [EvJobRead jobID; EvSleep d]) ds.
Proof.
  intros Hp. split.
  - specialize (Hp 0%nat). simpl in Hp. rewrite app_nil_r in Hp. apply Hp. lia.
  - intros k Hk. specialize (Hp (S k)). simpl in Hp.
    rewrite <- app_assoc. apply Hp. lia.
Qed.

Section Gen2Rounds.
Variables (m : Management) (jobID : string).

(** The rounds at which the job is read as pending only move the loop on
    along its plan. *)
Lemma checkImportJobStatus_loop_rounds n f interval maxInterval totalWait maxWait w :
  length (plan n interval maxInterval totalWait maxWait) = n ->
  pending_during m jobID w (plan n interval maxInterval totalWait maxWait) ->
  Gen2.checkImportJobStatus_loop (n + f) m jobID interval maxInterval totalWait maxWait w
  = Gen2.checkImportJobStatus_loop f m jobID
      (advance n interval maxInterval totalWait).1 maxInterval
      (advance n interval maxInterval totalWait).2 maxWait
      (w ++ pending_rounds jobID (plan n interval maxInterval totalWait maxWait)).
Proof.
  revert interval totalWait w.
  induction n as [|n IH]; intros interval totalWait w Hlen Hp.
  - simpl. now rewrite app_nil_r.
  - change (S n + f)%nat with (S (n + f)). rewrite checkImportJobStatus_loop_S.
    simpl in Hlen, Hp |- *.
    destruct (totalWait <? maxWait)%Z; [|discriminate].
    apply pending_during_cons in Hp as [(job & status & -> & -> & -> & ->) Hp].
    injection Hlen as Hlen. rewrite (IH _ _ _ Hlen Hp).
    unfold pending_rounds. simpl. now rewrite <- app_assoc.
Qed.

(** The shape of every run of the loop: it only reads the job and sleeps;
    its sleeps are the first [k] of its plan; it reads once per sleep and
    at most once more, and never more often than the plan has rounds. *)
Lemma checkImportJobStatus_loop_shape fuel interval maxInterval totalWait maxWait
    w res w' :
  Gen2.checkImportJobStatus_loop fuel m jobID interval maxInterval totalWait maxWait w
    = (res, w') ->
  exists k done,
    w' = w ++ done /\
    Forall (poll_event jobID) done /\
    sleeps done = take k (plan fuel interval maxInterval totalWait maxWait) /\
    (k <= length (reads done) <= S k)%nat /\
    (length (reads done) <= length (plan fuel interval maxInterval totalWait maxWait))%nat.
Proof.
  revert interval totalWait w.
  induction fuel as [|fuel IH]; intros interval totalWait w Hrun.
  - injection Hrun as _ <-. exists 0%nat, []. rewrite app_nil_r.
    repeat split; simpl; auto.
  - rewrite checkImportJobStatus_loop_S in Hrun. simpl plan.
    destruct (totalWait <? maxWait)%Z.
    + assert (forall r, (r, w ++ [EvJobRead jobID]) = (res, w') ->
                exists k done,
                  w' = w ++ done /\ Forall (poll_event jobID) done /\
                  sleeps done = take k
                    (interval :: plan fuel (next_interval interval maxInterval)
                                   maxInterval (Duration_add totalWait interval) maxWait) /\
                  (k <= length (reads done) <= S k)%nat /\
                  (length (reads done) <=
                   length (interval :: plan fuel (next_interval interval maxInterval)
                                        maxInterval (Duration_add totalWait interval)
                                        maxWait))%nat) as Hstop.
      { intros r Hr. injection Hr as _ <-. exists 0%nat, [EvJobRead jobID].
        repeat split; simpl; auto with lia. constructor; [now left | constructor]. }
      destruct (answer_Read m w jobID) as [job|e]; [|exact (Hstop _ Hrun)].
      destruct (Status job) as [status|]; [|exact (Hstop _ Hrun)].
      destruct (String.eqb status "completed"); [exact (Hstop _ Hrun)|].
      destruct (String.eqb status "failed"); [exact (Hstop _ Hrun)|].
      apply IH in Hrun as (k & done & -> & Hev & Hs & Hr & Hl).
      exists (S k), (EvJobRead jobID :: EvSleep interval :: done).
      rewrite <- app_assoc. repeat split; simpl; auto with lia.
      * constructor; [now left|]. constructor; [right; eauto | exact Hev].
      * now f_equal.
    + injection Hrun as _ <-. exists 0%nat, []. rewrite app_nil_r.
      repeat split; simpl; auto.
Qed.

(** Up to ten rounds the plan of the function is [schedule], and before
    the tenth the wait is under its ceiling. *)
Lemma plan_take n :
  (n <= 10)%nat ->
  plan n (5 * Second)%Z (30 * Second)%Z (0 * Second)%Z (5 * Minute)%Z = take n schedule.
Proof. intros Hn. do 11 (destruct n as [|n]; [reflexivity|]). lia. Qed.

Lemma advance_under_ceiling n :
  (n < 10)%nat ->
  ((advance n (5 * Second)%Z (30 * Second)%Z (0 * Second)%Z).2 <? 5 * Minute)%Z = true.
Proof. intros Hn. do 10 (destruct n as [|n]; [reflexivity|]). lia. Qed.

(** The poll of a job that is pending for [n] reads, fewer than ten, and
    then answers: one round, decided by that answer. *)
Lemma checkImportJobStatus_after_pending n w :
  (n < 10)%nat ->
  pending_during m jobID w (take n schedule) ->
  Gen2.checkImportJobStatus m jobID w
  = Gen2.checkImportJobStatus_loop (S (60 - n)) m jobID
      (advance n (5 * Second)%Z (30 * Second)%Z (0 * Second)%Z).1 (30 * Second)%Z
      (advance n (5 * Second)%Z (30 * Second)%Z (0 * Second)%Z).2 (5 * Minute)%Z
      (w ++ pending_rounds jobID (take n schedule)).
Proof.
  intros Hn Hp. rewrite checkImportJobStatus_unfold.
  replace 61%nat with (n + S (60 - n))%nat by lia.
  rewrite <- (plan_take n) in * by lia.
  apply checkImportJobStatus_loop_rounds; [|exact Hp].
  rewrite plan_take by lia. rewrite length_take.
  change (length schedule) with 10%nat. lia.
Qed.

End Gen2Rounds.

(** ** The import loop stops at the first batch whose job fails *)

Section ImportAborts.
Variables (m : Management) (jobID : string).


End ImportAborts.



(** Three batches on a tenant where every job stays pending: the first
    import times out after the ten rounds of [schedule], and no other
    batch is started. *)
Example importCmd_Run_loop_times_out :
  Gen2.importCmd_Run_loop (Sample.tenant_with_status "pending")
    [Sample.batch1; Sample.batch2; Sample.batch3] []
  = (Exited 1, EvJobImportUsers Sample.batch1 :: pending_rounds "job_1" schedule).
Proof. run_model. Qed.

(** X1. Whatever the tenant answers, the second-generation poller ends
    (it returns or panics on a job without status), having done nothing
    but read the job and sleep: at most ten reads, and sleeps that are the
    first ones of [schedule], 315 seconds at most in all. *)
Theorem checkImportJobStatus_bounded (m : Management) (jobID : string) (w : World) :
  exists res done k,
    Gen2.checkImportJobStatus m jobID w = (res, w ++ done) /\
    res ≠ Diverging /\
    Forall (poll_event jobID) done /\
    sleeps done = take k schedule /\
    (length (reads done) <= 10)%nat /\
    (foldr Z.add 0 (sleeps done) <= 5 * Minute + 15 * Second)%Z.
Proof.
  destruct (Gen2.checkImportJobStatus m jobID w) as [res w'] eqn:Hrun.
  pose proof (checkImportJobStatus_ends m jobID w) as Hends.
  rewrite Hrun in Hends. simpl in Hends.
  rewrite checkImportJobStatus_unfold in Hrun.
  apply checkImportJobStatus_loop_shape in Hrun as (k & done & -> & Hev & Hs & _ & Hl).
  rewrite plan_schedule in Hs, Hl.
  exists res, done, k. repeat split; try assumption.
  rewrite Hs. clear. do 11 (destruct k as [|k]; [vm_compute; discriminate|]).
  vm_compute; discriminate.
Qed.

(** X2. Whatever the tenant answers, the sleeps of one poll of the second
    generation never get shorter from one to the next, and each is of at
    least 5 and at most 40 seconds. *)
Theorem checkImportJobStatus_backoff (m : Management) (jobID : string) (w : World) :
  exists ds,
    sleeps (Gen2.checkImportJobStatus m jobID w).2 = sleeps w ++ ds /\
    StronglySorted Z.le ds /\
    Forall (fun d => (5 * Second <= d <= 40 * Second)%Z) ds.
Proof.
  destruct (Gen2.checkImportJobStatus m jobID w) as [res w'] eqn:Hrun.
  exact (checkImportJobStatus_sleeps_sorted m jobID w res w' Hrun).
Qed.

(** X3. A job read as pending [n] times, fewer than ten, and then as
    completed: the second-generation poller returns without error after
    these [n + 1] reads, having slept the first [n] intervals of
    [schedule] between them and not after the last. *)
Theorem checkImportJobStatus_completed_after (m : Management) (jobID : string)
    (n : nat) (w : World) (job : Job) :
  (n < 10)%nat ->
  pending_during m jobID w (take n schedule) ->
  answer_Read m (w ++ pending_rounds jobID (take n schedule)) jobID = Ok job ->
  Status job = Some "completed" ->
  Gen2.checkImportJobStatus m jobID w
  = (Normal None, w ++ pending_rounds jobID (take n schedule) ++ [EvJobRead jobID]).
Proof.
  intros Hn Hp Ha Hs.
  rewrite (checkImportJobStatus_after_pending m jobID n w Hn Hp).
  rewrite checkImportJobStatus_loop_S, (advance_under_ceiling n Hn), Ha, Hs.
  simpl. now rewrite <- app_assoc.
Qed.

(** X4. A job read as pending [n] times, fewer than ten, and then as
    failed: the second-generation poller returns the error that names the
    job right after that read, without another sleep. *)
Theorem checkImportJobStatus_failed_after (m : Management) (jobID : string)
    (n : nat) (w : World) (job : Job) :
  (n < 10)%nat ->
  pending_during m jobID w (take n schedule) ->
  answer_Read m (w ++ pending_rounds jobID (take n schedule)) jobID = Ok job ->
  Status job = Some "failed" ->
  Gen2.checkImportJobStatus m jobID w
  = (Normal (Some ("import job " +:+ jobID +:+ " failed")),
     w ++ pending_rounds jobID (take n schedule) ++ [EvJobRead jobID]).
Proof.
  intros Hn Hp Ha Hs.
  rewrite (checkImportJobStatus_after_pending m jobID n w Hn Hp).
  rewrite checkImportJobStatus_loop_S, (advance_under_ceiling n Hn), Ha, Hs.
  simpl. now rewrite <- app_assoc.
Qed.

(** X5. A read of the job that fails, after [n] reads, fewer than ten, at
    which the job was pending: the second-generation poller returns the
    error of that read, wrapped, without reading again and without
    sleeping again. *)
Theorem checkImportJobStatus_read_error_after (m : Management) (jobID : string)
    (n : nat) (w : World) (e : error) :
  (n < 10)%nat ->
  pending_during m jobID w (take n schedule) ->
  answer_Read m (w ++ pending_rounds jobID (take n schedule)) jobID = Err e ->
  Gen2.checkImportJobStatus m jobID w
  = (Normal (Some ("failed to read job status: " +:+ e)),
     w ++ pending_rounds jobID (take n schedule) ++ [EvJobRead jobID]).
Proof.
  intros Hn Hp Ha.
  rewrite (checkImportJobStatus_after_pending m jobID n w Hn Hp).
  rewrite checkImportJobStatus_loop_S, (advance_under_ceiling n Hn), Ha.
  now rewrite <- app_assoc.
Qed.

(** The sample tenants that settle after two reads are pending for two
    rounds of a poll that starts from the empty log. *)
Lemma tenant_settles_after_two_pending (status : string) :
  pending_during (Sample.tenant_settles_after 2 status) "job_1" [] (take 2 schedule).
Proof.
  intros k Hk. destruct k as [|[|k]]; [| |simpl in Hk; lia];
    eexists _, _; repeat split.
Qed.

Lemma tenant_drops_after_two_pending :
  pending_during Sample.tenant_drops_after_two "job_1" [] (take 2 schedule).
Proof.
  intros k Hk. destruct k as [|[|k]]; [| |simpl in Hk; lia];
    eexists _, _; repeat split.
Qed.

Lemma checkImportJobStatus_completed_after_witness :
  Gen2.checkImportJobStatus (Sample.tenant_settles_after 2 "completed") "job_1" []
  = (Normal None,
     [] ++ pending_rounds "job_1" (take 2 schedule) ++ [EvJobRead "job_1"]).
Proof.
  apply (checkImportJobStatus_completed_after
           (Sample.tenant_settles_after 2 "completed") "job_1" 2 []
           (mkJob (Some "job_1") (Some "completed") (Some "https://tenant/export.gz"))).
  - lia.
  - apply tenant_settles_after_two_pending.
  - reflexivity.
  - reflexivity.
Defined.

Lemma checkImportJobStatus_failed_after_witness :
  Gen2.checkImportJobStatus (Sample.tenant_settles_after 2 "failed") "job_1" []
  = (Normal (Some "import job job_1 failed"),
     [] ++ pending_rounds "job_1" (take 2 schedule) ++ [EvJobRead "job_1"]).
Proof.
  apply (checkImportJobStatus_failed_after
           (Sample.tenant_settles_after 2 "failed") "job_1" 2 []
           (mkJob (Some "job_1") (Some "failed") (Some "https://tenant/export.gz"))).
  - lia.
  - apply tenant_settles_after_two_pending.
  - reflexivity.
  - reflexivity.
Defined.

Lemma checkImportJobStatus_read_error_after_witness :
  Gen2.checkImportJobStatus Sample.tenant_drops_after_two "job_1" []
  = (Normal (Some "failed to read job status: connection reset by peer"),
     [] ++ pending_rounds "job_1" (take 2 schedule) ++ [EvJobRead "job_1"]).
Proof.
  apply (checkImportJobStatus_read_error_after
           Sample.tenant_drops_after_two "job_1" 2 [] "connection reset by peer").
  - lia.
  - apply tenant_drops_after_two_pending.
  - reflexivity.
Defined.

(** ** The first-generation poller, round by round *)

Section Gen1Rounds.
Context {lib : Library}.
Variables (m : Management) (jobID : string).

Lemma Gen1_checkImportJobStatus_rounds n f w :
  pending_during m jobID w (replicate n (10 * Second)%Z) ->
  Gen1.checkImportJobStatus (n + f) m jobID w
  = Gen1.checkImportJobStatus f m jobID
      (w ++ pending_rounds jobID (replicate n (10 * Second)%Z)).
Proof.
  revert w. induction n as [|n IH]; intros w Hp.
  - simpl. now rewrite app_nil_r.
  - change (S n + f)%nat with (S (n + f)). rewrite Gen1_checkImportJobStatus_S.
    simpl in Hp.
    apply pending_during_cons in Hp as [(job & status & -> & -> & -> & ->) Hp].
    rewrite (IH _ Hp). unfold pending_rounds. simpl. now rewrite <- app_assoc.
Qed.

End Gen1Rounds.

(** X6. A job read as pending [n] times, however many, and then as
    completed: the first-generation poller, followed for more than [n]
    rounds, returns without error after these [n + 1] reads, having slept
    ten seconds after each of the first [n]. *)
Theorem Gen1_checkImportJobStatus_completed_after (m : Management) (jobID : string)
    (n f : nat) (w : World) (job : Job) :
  pending_during m jobID w (replicate n (10 * Second)%Z) ->
  answer_Read m (w ++ pending_rounds jobID (replicate n (10 * Second)%Z)) jobID
    = Ok job ->
  Status job = Some "completed" ->
  Gen1.checkImportJobStatus (n + S f) m jobID w
  = (Normal None,
     w ++ pending_rounds jobID (replicate n (10 * Second)%Z) ++ [EvJobRead jobID]).
Proof.
  intros Hp Ha Hs.
  rewrite (Gen1_checkImportJobStatus_rounds m jobID n (S f) w Hp).
  rewrite Gen1_checkImportJobStatus_S, Ha, Hs. simpl. now rewrite <- app_assoc.
Qed.

Lemma Gen1_checkImportJobStatus_completed_after_witness :
  Gen1.checkImportJobStatus (2 + 1) (Sample.tenant_settles_after 2 "completed") "job_1" []
  = (Normal None,
     [] ++ pending_rounds "job_1" (replicate 2 (10 * Second)%Z) ++ [EvJobRead "job_1"]).
Proof.
  apply (Gen1_checkImportJobStatus_completed_after
           (Sample.tenant_settles_after 2 "completed") "job_1" 2 0 []
           (mkJob (Some "job_1") (Some "completed") (Some "https://tenant/export.gz"))).
  - intros k Hk. destruct k as [|[|k]]; [| |simpl in Hk; lia];
      eexists _, _; repeat split.
  - reflexivity.
  - reflexivity.
Defined.

(** ** Files *)

Section Files.
Variable h : Host.

(** X7. [downloadFile] always returns, after the request alone, the
    request and the creation of the file, or all three steps, in this
    order; it returns no error only after all three; and it creates the
    file only when the request was answered. *)
Theorem downloadFile_steps (url filename : string) (w : World) :
  exists err done,
    Gen2.downloadFile h url filename w = (Normal err, w ++ done) /\
    (done = [EvHttpGet url] \/ done = [EvHttpGet url; EvCreate filename] \/
     done = [EvHttpGet url; EvCreate filename; EvCopy]) /\
    (err = None -> done = [EvHttpGet url; EvCreate filename; EvCopy]) /\
    (EvCreate filename ∈ done -> exists body, answer_http_Get h w url = Ok body) /\
    Gen1.downloadFile h url filename w = Gen2.downloadFile h url filename w.
Proof.
  unfold Gen2.downloadFile, Gen1.downloadFile, bind, call, ret.
  destruct (answer_http_Get h w url) as [body|e].
  - destruct (answer_os_Create h (w ++ [EvHttpGet url]) filename) as [e|].
    + eexists _, [EvHttpGet url; EvCreate filename].
      rewrite <- app_assoc. repeat split; eauto. discriminate.
    + destruct (answer_io_Copy h ((w ++ [EvHttpGet url]) ++ [EvCreate filename]))
        as [out|e];
        eexists _, [EvHttpGet url; EvCreate filename; EvCopy];
        rewrite <- !app_assoc; repeat split; eauto.
  - eexists _, [EvHttpGet url]. repeat split; eauto; [discriminate|].
    intros Hin. apply list_elem_of_singleton in Hin. discriminate.
Qed.


End Files.

(** ** The export command, round by round *)

Section ExportRounds.
Context {lib : Library}.
Variables (m : Management) (h : Host) (jobID : string).

Lemma checkJobStatus_retry w :
  retry_answer (answer_Read m w jobID) ->
  exists e, Gen2.checkJobStatus m jobID w = (Normal (Err e), w ++ [EvJobRead jobID]).
Proof.
  unfold retry_answer, Gen2.checkJobStatus, bind, Job_Read, call. intros Hr.
  destruct (answer_Read m w jobID) as [job|e]; [|eauto].
  destruct Hr as (status & -> & Hstatus). simpl. rewrite Hstatus. eauto.
Qed.

Lemma checkJobStatus_completed w job location :
  answer_Read m w jobID = Ok job ->
  Status job = Some "completed" ->
  Location job = Some location ->
  Gen2.checkJobStatus m jobID w = (Normal (Ok location), w ++ [EvJobRead jobID]).
Proof.
  unfold Gen2.checkJobStatus, bind, Job_Read, call. now intros -> -> ->.
Qed.

(** One round of the loop, by what [checkJobStatus] and [downloadFile]
    give. *)
Lemma exportCmd_Run_loop_S f w :
  Gen2.exportCmd_Run_loop (S f) m h jobID w
  = match Gen2.checkJobStatus m jobID (w ++ [EvSleep (10 * Second)%Z]) with
    | (Normal (Ok location), w1) =>
        match Gen2.downloadFile h location "exported_users.json.gz" w1 with
        | (Normal None, w2) => (Normal tt, w2)
        | (Normal (Some _), w2) => (Exited 1, w2)
        | (Panicked msg, w2) => (Panicked msg, w2)
        | (Exited code, w2) => (Exited code, w2)
        | (Diverging, w2) => (Diverging, w2)
        end
    | (Normal (Err _), w1) => Gen2.exportCmd_Run_loop f m h jobID w1
    | (Panicked msg, w1) => (Panicked msg, w1)
    | (Exited code, w1) => (Exited code, w1)
    | (Diverging, w1) => (Diverging, w1)
    end.
Proof.
  simpl. unfold bind at 1. unfold time_Sleep, call. unfold bind at 1.
  destruct (Gen2.checkJobStatus m jobID (w ++ [EvSleep (10 * Second)%Z]))
    as [[[location|e]| | |] w1]; try reflexivity.
  unfold bind.
  destruct (Gen2.downloadFile h location "exported_users.json.gz" w1)
    as [[[e|]| | |] w2]; reflexivity.
Qed.

Lemma waiting_during_S w n :
  waiting_during m jobID w (S n) ->
  retry_answer (answer_Read m (w ++ [EvSleep (10 * Second)%Z]) jobID) /\
  waiting_during m jobID (w ++ [EvSleep (10 * Second)%Z; EvJobRead jobID]) n.
Proof.
  intros Hw. split.
  - apply (Hw 0%nat). lia.
  - intros k Hk. specialize (Hw (S k)). simpl in Hw.
    rewrite <- app_assoc. apply Hw. lia.
Qed.

(** The rounds at which the job is not read as completed only add a sleep
    and a read each. *)
Lemma exportCmd_Run_loop_rounds n f w :
  waiting_during m jobID w n ->
  Gen2.exportCmd_Run_loop (n + f) m h jobID w
  = Gen2.exportCmd_Run_loop f m h jobID
      (w ++ sleep_read_rounds n (10 * Second)%Z jobID).
Proof.
  revert w. induction n as [|n IH]; intros w Hw.
  - simpl. now rewrite app_nil_r.
  - change (S n + f)%nat with (S (n + f)). rewrite exportCmd_Run_loop_S.
    apply waiting_during_S in Hw as [Hr Hw].
    destruct (checkJobStatus_retry _ Hr) as [e ->].
    replace ((w ++ [EvSleep (10 * Second)%Z]) ++ [EvJobRead jobID])
      with (w ++ [EvSleep (10 * Second)%Z; EvJobRead jobID])
      by (now rewrite <- app_assoc).
    rewrite (IH _ Hw). cbn [sleep_read_rounds]. now rewrite <- app_assoc.
Qed.

End ExportRounds.

(** X9. The export command on a job that is not read as completed at its
    first [n] reads (pending, failed, or a read that fails) and then is,
    with a location: both generations, followed for more than [n] rounds,
    start the export once, sleep ten seconds before each of the [n + 1]
    reads, the first included, then download the location into
    [exported_users.json.gz] and return. *)
Theorem exportCmd_Run_completed_after (m : Management) (h : Host) (jobID : string)
    (n f : nat) (w : World) (job : Job) (location body out : string) :
  let polled := w ++ EvJobExportUsers :: sleep_read_rounds n (10 * Second)%Z jobID
                  ++ [EvSleep (10 * Second)%Z; EvJobRead jobID] in
  answer_ExportUsers m w = Ok (Some jobID) ->
  waiting_during m jobID (w ++ [EvJobExportUsers]) n ->
  answer_Read m
    (w ++ EvJobExportUsers :: sleep_read_rounds n (10 * Second)%Z jobID
       ++ [EvSleep (10 * Second)%Z]) jobID = Ok job ->
  Status job = Some "completed" ->
  Location job = Some location ->
  answer_http_Get h polled location = Ok body ->
  answer_os_Create h (polled ++ [EvHttpGet location]) "exported_users.json.gz" = None ->
  answer_io_Copy h
    (polled ++ [EvHttpGet location; EvCreate "exported_users.json.gz"]) = Ok out ->
  Gen2.exportCmd_Run (n + S f) m h w
  = (Normal tt,
     polled ++ [EvHttpGet location; EvCreate "exported_users.json.gz"; EvCopy]) /\
  Gen1.exportCmd_Run (n + S f) m h w
  = (Normal tt,
     polled ++ [EvHttpGet location; EvCreate "exported_users.json.gz"; EvCopy]).
Proof.
  intros polled Hexport Hw Ha Hs Hl Hget Hcreate Hcopy.
  rewrite exportCmd_Run_eq, Gen1_exportCmd_Run_eq, Hexport.
  rewrite (exportCmd_Run_loop_rounds m h jobID n (S f) _ Hw).
  rewrite exportCmd_Run_loop_S.
  assert (((w ++ [EvJobExportUsers]) ++ sleep_read_rounds n (10 * Second)%Z jobID)
            ++ [EvSleep (10 * Second)%Z]
          = w ++ EvJobExportUsers :: sleep_read_rounds n (10 * Second)%Z jobID
              ++ [EvSleep (10 * Second)%Z]) as ->
    by (now rewrite <- !app_assoc).
  rewrite (checkJobStatus_completed m jobID _ job location Ha Hs Hl).
  assert ((w ++ EvJobExportUsers :: sleep_read_rounds n (10 * Second)%Z jobID
             ++ [EvSleep (10 * Second)%Z]) ++ [EvJobRead jobID] = polled) as ->
    by (subst polled; rewrite <- !app_assoc; simpl; now rewrite <- !app_assoc).
  replace (polled ++ [EvHttpGet location; EvCreate "exported_users.json.gz"])
    with ((polled ++ [EvHttpGet location]) ++ [EvCreate "exported_users.json.gz"])
    in Hcopy by (now rewrite <- app_assoc).
  unfold Gen2.downloadFile. rewrite bind_call, Hget, bind_call, Hcreate, bind_call, Hcopy.
  unfold ret. now rewrite <- !app_assoc.
Qed.

(** X10. When the download of a completed export fails, both generations
    of the export command exit with status 1 there: they do not poll
    again. *)
Theorem exportCmd_Run_download_fails (m : Management) (h : Host) (jobID : string)
    (n f : nat) (w w' : World) (job : Job) (location : string) (e : error) :
  let polled := w ++ EvJobExportUsers :: sleep_read_rounds n (10 * Second)%Z jobID
                  ++ [EvSleep (10 * Second)%Z; EvJobRead jobID] in
  answer_ExportUsers m w = Ok (Some jobID) ->
  waiting_during m jobID (w ++ [EvJobExportUsers]) n ->
  answer_Read m
    (w ++ EvJobExportUsers :: sleep_read_rounds n (10 * Second)%Z jobID
       ++ [EvSleep (10 * Second)%Z]) jobID = Ok job ->
  Status job = Some "completed" ->
  Location job = Some location ->
  Gen2.downloadFile h location "exported_users.json.gz" polled = (Normal (Some e), w') ->
  Gen2.exportCmd_Run (n + S f) m h w = (Exited 1, w') /\
  Gen1.exportCmd_Run (n + S f) m h w = (Exited 1, w').
Proof.
  intros polled Hexport Hw Ha Hs Hl Hdown.
  rewrite exportCmd_Run_eq, Gen1_exportCmd_Run_eq, Hexport.
  rewrite (exportCmd_Run_loop_rounds m h jobID n (S f) _ Hw).
  rewrite exportCmd_Run_loop_S.
  assert (((w ++ [EvJobExportUsers]) ++ sleep_read_rounds n (10 * Second)%Z jobID)
            ++ [EvSleep (10 * Second)%Z]
          = w ++ EvJobExportUsers :: sleep_read_rounds n (10 * Second)%Z jobID
              ++ [EvSleep (10 * Second)%Z]) as ->
    by (now rewrite <- !app_assoc).
  rewrite (checkJobStatus_completed m jobID _ job location Ha Hs Hl).
  assert ((w ++ EvJobExportUsers :: sleep_read_rounds n (10 * Second)%Z jobID
             ++ [EvSleep (10 * Second)%Z]) ++ [EvJobRead jobID] = polled) as ->
    by (subst polled; rewrite <- !app_assoc; simpl; now rewrite <- !app_assoc).
  now rewrite Hdown.
Qed.

Lemma tenant_settles_after_two_waiting (status : string) :
  waiting_during (Sample.tenant_settles_after 2 status) "job_1"
    ([] ++ [EvJobExportUsers]) 2.
Proof.
  intros k Hk. destruct k as [|[|k]]; [| |lia]; eexists; split; reflexivity.
Qed.

Lemma exportCmd_Run_completed_after_witness :
  Gen2.exportCmd_Run (2 + 1) (Sample.tenant_settles_after 2 "completed") Sample.host []
  = (Normal tt,
     ([] ++ EvJobExportUsers :: sleep_read_rounds 2 (10 * Second)%Z "job_1"
         ++ [EvSleep (10 * Second)%Z; EvJobRead "job_1"])
     ++ [EvHttpGet "https://tenant/export.gz"; EvCreate "exported_users.json.gz";
         EvCopy]) /\
  Gen1.exportCmd_Run (2 + 1) (Sample.tenant_settles_after 2 "completed") Sample.host []
  = (Normal tt,
     ([] ++ EvJobExportUsers :: sleep_read_rounds 2 (10 * Second)%Z "job_1"
         ++ [EvSleep (10 * Second)%Z; EvJobRead "job_1"])
     ++ [EvHttpGet "https://tenant/export.gz"; EvCreate "exported_users.json.gz";
         EvCopy]).
Proof.
  apply (exportCmd_Run_completed_after
           (Sample.tenant_settles_after 2 "completed") Sample.host "job_1" 2 0 []
           (mkJob (Some "job_1") (Some "completed") (Some "https://tenant/export.gz"))
           "https://tenant/export.gz" "archive" "archive").
  - reflexivity.
  - apply tenant_settles_after_two_waiting.
  - reflexivity.
  - reflexivity.
  - reflexivity.
  - reflexivity.
  - reflexivity.
  - reflexivity.
Defined.

Lemma exportCmd_Run_download_fails_witness :
  Gen2.exportCmd_Run (2 + 1) (Sample.tenant_settles_after 2 "completed")
    Sample.host_offline []
  = (Exited 1,
     ([] ++ EvJobExportUsers :: sleep_read_rounds 2 (10 * Second)%Z "job_1"
         ++ [EvSleep (10 * Second)%Z; EvJobRead "job_1"])
     ++ [EvHttpGet "https://tenant/export.gz"]) /\
  Gen1.exportCmd_Run (2 + 1) (Sample.tenant_settles_after 2 "completed")
    Sample.host_offline []
  = (Exited 1,
     ([] ++ EvJobExportUsers :: sleep_read_rounds 2 (10 * Second)%Z "job_1"
         ++ [EvSleep (10 * Second)%Z; EvJobRead "job_1"])
     ++ [EvHttpGet "https://tenant/export.gz"]).
Proof.
  apply (exportCmd_Run_download_fails
           (Sample.tenant_settles_after 2 "completed") Sample.host_offline "job_1" 2 0 []
           _
           (mkJob (Some "job_1") (Some "completed") (Some "https://tenant/export.gz"))
           "https://tenant/export.gz" "failed to download file: no such host").
  - reflexivity.
  - apply tenant_settles_after_two_waiting.
  - reflexivity.
  - reflexivity.
  - reflexivity.
  - reflexivity.
Defined.

(** ** One batch, and the loop over the batches *)

Section ImportRounds.
Context {lib : Library}.
Variable m : Management.

(** Neither the poller nor [importUsersChunk] ends the process. *)
Lemma checkImportJobStatus_loop_no_exit jobID fuel interval maxInterval totalWait
    maxWait w code w' :
  Gen2.checkImportJobStatus_loop fuel m jobID interval maxInterval totalWait maxWait w
    ≠ (Exited code, w').
Proof.
  revert interval totalWait w.
  induction fuel as [|fuel IH]; intros interval totalWait w; [discriminate|].
  rewrite checkImportJobStatus_loop_S.
  destruct (totalWait <? maxWait)%Z; [|discriminate].
  destruct (answer_Read m w jobID) as [job|e]; [|discriminate].
  destruct (Status job) as [status|]; [|discriminate].
  destruct (String.eqb status "completed"); [discriminate|].
  destruct (String.eqb status "failed"); [discriminate|].
  apply IH.
Qed.

Lemma importUsersChunk_no_exit users w code w' :
  Gen2.importUsersChunk m users w ≠ (Exited code, w').
Proof.
  rewrite importUsersChunk_eq.
  destruct (answer_ImportUsers m w users) as [[jobID|]|e]; [| discriminate | discriminate].
  rewrite checkImportJobStatus_unfold. apply checkImportJobStatus_loop_no_exit.
Qed.

(** X11. [importUsersChunk] starts the import of its batch once, first of
    all, and then only reads that job and sleeps; it always ends; and when
    the import cannot be started it returns that error, wrapped, without
    reading any job. *)
Theorem importUsersChunk_shape (users : list GoMap) (w : World) :
  exists res done,
    Gen2.importUsersChunk m users w = (res, w ++ EvJobImportUsers users :: done) /\
    res ≠ Diverging /\
    imports done = [] /\
    (forall jobID, answer_ImportUsers m w users = Ok (Some jobID) ->
       Forall (poll_event jobID) done) /\
    (forall e, answer_ImportUsers m w users = Err e ->
       res = Normal (Some ("failed to import users: " +:+ e)) /\ done = []).
Proof.
  pose proof (importUsersChunk_ends m users w) as Hends.
  rewrite importUsersChunk_eq in *.
  destruct (answer_ImportUsers m w users) as [[jobID|]|e].
  - destruct (Gen2.checkImportJobStatus m jobID (w ++ [EvJobImportUsers users]))
      as [res w'] eqn:Hrun.
    cbn [fst] in Hends.
    rewrite checkImportJobStatus_unfold in Hrun.
    pose proof (checkImportJobStatus_loop_imports _ _ _ _ _ _ _ _ _ _ Hrun) as Himp.
    apply checkImportJobStatus_loop_shape in Hrun as (k & done & -> & Hev & _).
    exists res, done. rewrite <- app_assoc.
    split; [reflexivity|]. split; [assumption|]. split; [|split].
    + rewrite !imports_app in Himp. simpl in Himp.
      apply (f_equal length) in Himp. rewrite !length_app in Himp. simpl in Himp.
      destruct (imports done); [reflexivity | simpl in Himp; lia].
    + intros j Hj. injection Hj as <-. exact Hev.
    + discriminate.
  - eexists _, []. split; [reflexivity|]. repeat split; discriminate.
  - eexists _, []. split; [reflexivity|]. split; [discriminate|]. split; [reflexivity|].
    split; [discriminate|]. intros e' He. now injection He as <-.
Qed.

(** The whole loop, by its outcome. *)
Lemma importCmd_Run_loop_outcome (chunks : list (list GoMap)) (w : World) :
  exists res w' k,
    Gen2.importCmd_Run_loop m chunks w = (res, w') /\
    (k <= length chunks)%nat /\
    imports w' = imports w ++ take k chunks /\
    res ≠ Diverging /\
    (res = Normal tt -> k = length chunks) /\
    (forall code, res = Exited code -> code = 1%Z /\ (0 < k)%nat).
Proof.
  revert w. induction chunks as [|chunk chunks IH]; intros w.
  - exists (Normal tt), w, 0%nat. simpl. rewrite app_nil_r.
    split; [reflexivity|]. split; [lia|]. split; [reflexivity|].
    split; [discriminate|]. split; [reflexivity | discriminate].
  - rewrite importCmd_Run_loop_cons.
    pose proof (importUsersChunk_ends m chunk w) as Hends.
    destruct (Gen2.importUsersChunk m chunk w) as [r w1] eqn:Hchunk.
    pose proof (importUsersChunk_no_exit chunk w) as Hnoexit. rewrite Hchunk in Hnoexit.
    apply importUsersChunk_imports in Hchunk. cbn [fst] in Hends.
    destruct r as [[e|]|msg|code|]; [| | | now destruct (Hnoexit code w1) | congruence].
    + exists (Exited 1), w1, 1%nat. simpl.
      split; [reflexivity|]. split; [lia|]. split; [exact Hchunk|].
      split; [discriminate|]. split; [discriminate|].
      intros c Hc. injection Hc as <-. split; [reflexivity | lia].
    + destruct (IH w1) as (res & w' & k & -> & Hk & Himp & Hres & Hall & Hexit).
      exists res, w', (S k). simpl.
      split; [reflexivity|]. split; [lia|].
      split; [rewrite Himp, Hchunk; now rewrite <- app_assoc|].
      split; [exact Hres|]. split; [intros Hr; now rewrite (Hall Hr)|].
      intros c Hc. destruct (Hexit c Hc). split; [assumption | lia].
    + exists (Panicked msg), w1, 1%nat. simpl.
      split; [reflexivity|]. split; [lia|]. split; [exact Hchunk|].
      split; [discriminate|]. split; discriminate.
Qed.

End ImportRounds.

(** X12. The loop of the import command always ends; the imports it
    started are the first [k] batches, in their order, once each; it
    returns only after all of them, and when it ends the process it is
    with status 1 after at least one import. *)
Theorem importCmd_Run_loop_in_order (m : Management) (chunks : list (list GoMap))
    (w : World) :
  exists res w' k,
    Gen2.importCmd_Run_loop m chunks w = (res, w') /\
    (k <= length chunks)%nat /\
    imports w' = imports w ++ take k chunks /\
    res ≠ Diverging /\
    (res = Normal tt -> k = length chunks) /\
    (forall code, res = Exited code -> code = 1%Z /\ (0 < k)%nat).
Proof. apply importCmd_Run_loop_outcome. Qed.

Section ImportAtOnce.
Variable m : Management.
Hypothesis Hm : completes_at_once m.

Lemma importUsersChunk_at_once users w :
  exists jobID,
    Gen2.importUsersChunk m users w
    = (Normal None, w ++ [EvJobImportUsers users; EvJobRead jobID]).
Proof.
  destruct (Hm w users) as (jobID & Hi & Hr). exists jobID.
  destruct (Hr (w ++ [EvJobImportUsers users])) as (job & Ha & Hs).
  rewrite importUsersChunk_eq, Hi, checkImportJobStatus_unfold.
  rewrite checkImportJobStatus_loop_S.
  change ((0 * Second <? 5 * Minute)%Z) with true. cbv iota.
  rewrite Ha, Hs. simpl. now rewrite <- app_assoc.
Qed.

Lemma importCmd_Run_loop_at_once chunks w :
  exists w',
    Gen2.importCmd_Run_loop m chunks w = (Normal tt, w') /\
    imports w' = imports w ++ chunks /\
    sleeps w' = sleeps w /\
    length (reads w') = (length (reads w) + length chunks)%nat.
Proof.
  revert w. induction chunks as [|chunk chunks IH]; intros w.
  - exists w. simpl. rewrite app_nil_r. auto.
  - rewrite importCmd_Run_loop_cons.
    destruct (importUsersChunk_at_once chunk w) as [jobID ->].
    destruct (IH (w ++ [EvJobImportUsers chunk; EvJobRead jobID]))
      as (w' & -> & Hi & Hs & Hr).
    exists w'. split; [reflexivity|].
    rewrite Hi, Hs, Hr, imports_app, sleeps_app, reads_app, length_app. simpl.
    rewrite <- app_assoc, app_nil_r. repeat split; lia.
Qed.

End ImportAtOnce.

(** X13. On a tenant that gives every import a job read as completed from
    then on, the loop of the import command returns after one import and
    one read per batch, all batches in order, without a sleep. *)
Theorem importCmd_Run_loop_no_wait (m : Management) (chunks : list (list GoMap))
    (w : World) :
  completes_at_once m ->
  exists w',
    Gen2.importCmd_Run_loop m chunks w = (Normal tt, w') /\
    imports w' = imports w ++ chunks /\
    sleeps w' = sleeps w /\
    length (reads w') = (length (reads w) + length chunks)%nat.
Proof. intros Hm. now apply importCmd_Run_loop_at_once. Qed.

Lemma tenant_completed_at_once :
  completes_at_once (Sample.tenant_with_status "completed").
Proof. intros w users. exists "job_1". split; [reflexivity|]. intros w'. eauto. Qed.

Lemma importCmd_Run_loop_no_wait_witness :
  exists w',
    Gen2.importCmd_Run_loop (Sample.tenant_with_status "completed")
      [Sample.batch1; Sample.batch2] [] = (Normal tt, w') /\
    imports w' = imports [] ++ [Sample.batch1; Sample.batch2] /\
    sleeps w' = sleeps [] /\
    length (reads w') = (length (reads []) + length [Sample.batch1; Sample.batch2])%nat.
Proof.
  apply (importCmd_Run_loop_no_wait (Sample.tenant_with_status "completed")
           [Sample.batch1; Sample.batch2] []).
  apply tenant_completed_at_once.
Defined.

(** ** The import command *)

Section ImportCommand.
Context {lib : Library}.
Variables (m : Management) (h : Host).

(** Once the archive is read, the command is the batcher followed by the
    loop over its batches. *)
Lemma importCmd_Run_archive w data :
  archive_read h w data ->
  Gen2.importCmd_Run m h w
  = match Gen2.splitJSONData data 500000%Z true with
    | Normal (Ok chunks) => Gen2.importCmd_Run_loop m chunks (w ++ archive_log)
    | Normal (Err _) => (Normal tt, w ++ archive_log)
    | Panicked msg => (Panicked msg, w ++ archive_log)
    | Exited code => (Exited code, w ++ archive_log)
    | Diverging => (Diverging, w ++ archive_log)
    end.
Proof.
  intros (Hopen1 & Hopen2 & Hgz & Hcopy).
  unfold Gen2.importCmd_Run. rewrite bind_call, Hopen1.
  unfold Gen2.unzipGZFile. unfold bind at 1. rewrite bind_call, Hopen2.
  replace ((w ++ [EvOpen "exported_users.json.gz"]) ++ [EvOpen "exported_users.json.gz"])
    with (w ++ [EvOpen "exported_users.json.gz"; EvOpen "exported_users.json.gz"])
    by (now rewrite <- app_assoc).
  rewrite bind_call, Hgz.
  replace ((w ++ [EvOpen "exported_users.json.gz"; EvOpen "exported_users.json.gz"])
             ++ [EvGzipNewReader])
    with (w ++ [EvOpen "exported_users.json.gz"; EvOpen "exported_users.json.gz";
                EvGzipNewReader])
    by (now rewrite <- app_assoc).
  rewrite bind_call, Hcopy. unfold ret.
  replace ((w ++ [EvOpen "exported_users.json.gz"; EvOpen "exported_users.json.gz";
                  EvGzipNewReader]) ++ [EvCopy])
    with (w ++ archive_log) by (unfold archive_log; now rewrite <- app_assoc).
  unfold bind.
  destruct (Gen2.splitJSONData data 500000%Z true) as [[chunks|e]|msg|code|];
    reflexivity.
Qed.

End ImportCommand.

(** The batcher returns or panics; it neither ends the process nor goes
    on for ever. *)
Lemma Gen2_splitJSONData_loop_outcome {lib : Library} decoder maxChunkSize emailVerify
    chunks chunk chunkSize :
  (exists r, Gen2.splitJSONData_loop decoder maxChunkSize emailVerify chunks chunk
               chunkSize = Normal r) \/
  (exists msg, Gen2.splitJSONData_loop decoder maxChunkSize emailVerify chunks chunk
                 chunkSize = Panicked msg).
Proof.
  revert chunks chunk chunkSize.
  induction decoder as [|doc decoder IH]; intros chunks chunk chunkSize; simpl.
  - destruct (0 <? length chunk)%nat; eauto.
  - destruct doc as [[fields|]|e]; simpl; eauto.
    destruct (Marshal (Some (<["email_verified":=JBool emailVerify]> fields)))
      as [userData|e]; eauto.
    destruct (int_add chunkSize (len userData) >? maxChunkSize)%Z; apply IH.
Qed.

(** X14. When a document of the archive does not decode, wherever it
    stands, the second-generation import command does nothing beyond
    reading the archive: it starts no import, and it returns (or panics,
    on a [null] document before the bad one) without the exit status 1 of
    a failed batch. *)
Theorem importCmd_Run_malformed_archive {lib : Library} (m : Management) (h : Host)
    (w : World) (data : string) (e : error) :
  archive_read h w data ->
  DecErr e ∈ NewDecoder data ->
  exists res,
    Gen2.importCmd_Run m h w = (res, w ++ archive_log) /\
    imports (w ++ archive_log) = imports w /\
    (res = Normal tt \/ exists msg, res = Panicked msg).
Proof.
  intros Harchive Hin. rewrite (importCmd_Run_archive m h w data Harchive).
  unfold Gen2.splitJSONData.
  pose proof (Gen2_splitJSONData_loop_DecErr (NewDecoder data) 500000%Z true [] [] 0%Z e)
    as Hno.
  destruct (Gen2_splitJSONData_loop_outcome (NewDecoder data) 500000%Z true [] [] 0%Z)
    as [[r Hr]|[msg Hr]]; rewrite Hr in *.
  - destruct r as [chunks|err]; [now destruct (Hno chunks Hin)|].
    exists (Normal tt). rewrite imports_app. simpl. rewrite app_nil_r. auto.
  - exists (Panicked msg). rewrite imports_app. simpl. rewrite app_nil_r. eauto.
Qed.

(** X15. When the second-generation import command has read and batched
    the archive and returns, the users it handed to the tenant, import
    after import, are the records of the archive, each once and in their
    order, with [email_verified] set to true. *)
Theorem importCmd_Run_imports_all {lib : Library} (m : Management) (h : Host)
    (w w' : World) (data : string) (chunks : list (list GoMap)) :
  archive_read h w data ->
  Gen2.splitJSONData data 500000%Z true = Normal (Ok chunks) ->
  Gen2.importCmd_Run m h w = (Normal tt, w') ->
  imports w' = imports w ++ chunks /\
  exists records : list (gmap string JValue),
    NewDecoder data = (fun fields => DecOk (Some fields)) <$> records /\
    concat chunks = with_email_verified true <$> records.
Proof.
  intros Harchive Hsplit Hrun.
  rewrite (importCmd_Run_archive m h w data Harchive), Hsplit in Hrun.
  apply importCmd_Run_loop_done in Hrun.
  rewrite imports_app in Hrun. simpl in Hrun. rewrite app_nil_r in Hrun.
  split; [exact Hrun|].
  apply Gen2_splitJSONData_pack in Hsplit as (records & Hdec & _ & Hcat). eauto.
Qed.

Lemma host_archive_read (w : World) : archive_read Sample.host w "archive".
Proof. repeat split. Qed.

Lemma importCmd_Run_malformed_archive_witness :
  exists res,
    Gen2.importCmd_Run (lib := Sample.library Sample.broken_stream Sample.table)
      (Sample.tenant_with_status "completed") Sample.host []
    = (res, [] ++ archive_log) /\
    imports ([] ++ archive_log) = imports [] /\
    (res = Normal tt \/ exists msg, res = Panicked msg).
Proof.
  apply (importCmd_Run_malformed_archive
           (lib := Sample.library Sample.broken_stream Sample.table)
           (Sample.tenant_with_status "completed") Sample.host [] "archive"
           "unexpected end of JSON input").
  - apply host_archive_read.
  - apply list_elem_of_further, list_elem_of_here.
Defined.

Lemma importCmd_Run_imports_all_witness :
  imports (archive_log ++
           [EvJobImportUsers [with_email_verified true Sample.user1;
                              with_email_verified true Sample.user2];
            EvJobRead "job_1"])
  = imports [] ++ [[with_email_verified true Sample.user1;
                    with_email_verified true Sample.user2]] /\
  exists records : list (gmap string JValue),
    NewDecoder (Library := Sample.library Sample.two_records Sample.table) "archive"
    = (fun fields => DecOk (Some fields)) <$> records /\
    concat [[with_email_verified true Sample.user1;
             with_email_verified true Sample.user2]]
    = with_email_verified true <$> records.
Proof.
  apply (importCmd_Run_imports_all
           (lib := Sample.library Sample.two_records Sample.table)
           (Sample.tenant_with_status "completed") Sample.host [] _ "archive").
  - apply host_archive_read.
  - run_model.
  - run_model.
Defined.

(** ** Credentials and [main] *)

Lemma Getenv_missing (env : gmap string string) (key : string) :
  missing env key <-> Getenv env key = EmptyString.
Proof.
  unfold missing, Getenv. destruct (env !! key) as [v|]; simpl; split.
  - intros [H|H]; [discriminate | now injection H].
  - intros ->. now right.
  - reflexivity.
  - intros _. now left.
Qed.

Lemma Getenv_present (env : gmap string string) (key : string) :
  ¬ missing env key -> String.eqb (Getenv env key) EmptyString = false.
Proof.
  intros Hpresent. apply String.eqb_neq. intros Hempty.
  apply Hpresent, Getenv_missing, Hempty.
Qed.

Lemma getAuth0Client_credentials_aux (p : Process) (env : gmap string string)
    (domainEnv clientIDEnv clientSecretEnv : string) :
  (missing env domainEnv \/ missing env clientIDEnv \/ missing env clientSecretEnv ->
   Gen2.getAuth0Client p env domainEnv clientIDEnv clientSecretEnv
   = Err (domainEnv +:+ " credentials are missing. Please check your .env file")) /\
  (¬ missing env domainEnv -> ¬ missing env clientIDEnv ->
   ¬ missing env clientSecretEnv ->
   Gen2.getAuth0Client p env domainEnv clientIDEnv clientSecretEnv
   = management_New p (Getenv env domainEnv) (Getenv env clientIDEnv)
       (Getenv env clientSecretEnv)).
Proof.
  unfold Gen2.getAuth0Client. split.
  - intros Hmissing.
    destruct Hmissing as [H|[H|H]]; apply Getenv_missing in H; rewrite H; simpl;
      [reflexivity | | ].
    + now rewrite orb_true_r.
    + now rewrite orb_true_r.
  - intros Hd Hc Hs.
    now rewrite (Getenv_present _ _ Hd), (Getenv_present _ _ Hc), (Getenv_present _ _ Hs).
Qed.

(** X16. [getAuth0Client] refuses to build a client when one of its three
    variables is not set or is set to the empty string, with an error that
    names the domain variable; otherwise it is [management.New] on the
    three values. *)
Theorem getAuth0Client_credentials (p : Process) (env : gmap string string)
    (domainEnv clientIDEnv clientSecretEnv : string) :
  (missing env domainEnv \/ missing env clientIDEnv \/ missing env clientSecretEnv ->
   Gen2.getAuth0Client p env domainEnv clientIDEnv clientSecretEnv
   = Err (domainEnv +:+ " credentials are missing. Please check your .env file")) /\
  (¬ missing env domainEnv -> ¬ missing env clientIDEnv ->
   ¬ missing env clientSecretEnv ->
   Gen2.getAuth0Client p env domainEnv clientIDEnv clientSecretEnv
   = management_New p (Getenv env domainEnv) (Getenv env clientIDEnv)
       (Getenv env clientSecretEnv)).
Proof. apply getAuth0Client_credentials_aux. Qed.

(** A variable of a client that is missing. *)
Lemma getAuth0Client_missing (p : Process) (env : gmap string string)
    (domainEnv clientIDEnv clientSecretEnv key : string) :
  key ∈ [domainEnv; clientIDEnv; clientSecretEnv] ->
  missing env key ->
  exists e, Gen2.getAuth0Client p env domainEnv clientIDEnv clientSecretEnv = Err e.
Proof.
  intros Hkey Hmissing. eexists.
  apply (proj1 (getAuth0Client_credentials_aux p env domainEnv clientIDEnv clientSecretEnv)).
  repeat (apply elem_of_cons in Hkey as [->|Hkey]; [tauto|]). inversion Hkey.
Qed.

Lemma getAuth0Client_credentials_witness :
  Gen2.getAuth0Client (Sample.process_incomplete CmdImport)
    (delete "DESTINATION_CLIENT_SECRET" Sample.credentials)
    "DESTINATION_DOMAIN" "DESTINATION_CLIENT_ID" "DESTINATION_CLIENT_SECRET"
  = Err ("DESTINATION_DOMAIN" +:+ " credentials are missing. Please check your .env file").
Proof.
  apply (proj1 (getAuth0Client_credentials (Sample.process_incomplete CmdImport)
                  (delete "DESTINATION_CLIENT_SECRET" Sample.credentials)
                  "DESTINATION_DOMAIN" "DESTINATION_CLIENT_ID"
                  "DESTINATION_CLIENT_SECRET")).
  right. right. left. apply lookup_delete_eq.
Defined.

(** The environment the second generation goes on with. *)
Lemma Gen2_main_unfold (fuel : nat) (p : Process) (h : Host) {lib : Library} :
  Gen2.main fuel p h
  = match Gen2.getAuth0Client p
            (match godotenv_Load p with Err _ => environ p | Ok env => env end)
            "SOURCE_DOMAIN" "SOURCE_CLIENT_ID" "SOURCE_CLIENT_SECRET" with
    | Err _ => ret tt
    | Ok sourceClient =>
        match Gen2.getAuth0Client p
                (match godotenv_Load p with Err _ => environ p | Ok env => env end)
                "DESTINATION_DOMAIN" "DESTINATION_CLIENT_ID"
                "DESTINATION_CLIENT_SECRET" with
        | Err _ => ret tt
        | Ok targetClient =>
            match command p with
            | CmdExport => Gen2.exportCmd_Run fuel sourceClient h
            | CmdImport => Gen2.importCmd_Run targetClient h
            | CmdNone => ret tt
            end
        end
    end.
Proof. reflexivity. Qed.

Lemma Gen1_getSourceAuth0Client_missing (p : Process) (env : gmap string string)
    (key : string) :
  key ∈ ["SOURCE_DOMAIN"; "SOURCE_CLIENT_ID"; "SOURCE_CLIENT_SECRET"] ->
  missing env key ->
  exists e, Gen1.getSourceAuth0Client p env = Err e.
Proof.
  intros Hkey Hmissing. apply Getenv_missing in Hmissing.
  unfold Gen1.getSourceAuth0Client.
  repeat (apply elem_of_cons in Hkey as [->|Hkey];
          [rewrite Hmissing; simpl; rewrite ?orb_true_r; eauto|]).
  inversion Hkey.
Qed.

Lemma Gen1_getTargetAuth0Client_missing (p : Process) (env : gmap string string)
    (key : string) :
  key ∈ ["DESTINATION_DOMAIN"; "DESTINATION_CLIENT_ID"; "DESTINATION_CLIENT_SECRET"] ->
  missing env key ->
  exists e, Gen1.getTargetAuth0Client p env = Err e.
Proof.
  intros Hkey Hmissing. apply Getenv_missing in Hmissing.
  unfold Gen1.getTargetAuth0Client.
  repeat (apply elem_of_cons in Hkey as [->|Hkey];
          [rewrite Hmissing; simpl; rewrite ?orb_true_r; eauto|]).
  inversion Hkey.
Qed.

(** X17. Both commands need the credentials of both tenants: when one of
    the six variables is missing from the environment the program goes on
    with, [main] does nothing to the outside, whichever command was asked
    and whatever the tenants would answer. The second generation returns,
    the first exits with status 1. *)
Theorem main_requires_credentials {lib : Library} (fuel : nat) (p : Process) (h : Host)
    (w : World) (key : string) :
  key ∈ ["SOURCE_DOMAIN"; "SOURCE_CLIENT_ID"; "SOURCE_CLIENT_SECRET";
         "DESTINATION_DOMAIN"; "DESTINATION_CLIENT_ID"; "DESTINATION_CLIENT_SECRET"] ->
  (missing (match godotenv_Load p with Err _ => environ p | Ok env => env end) key ->
   Gen2.main fuel p h w = (Normal tt, w)) /\
  (forall env, godotenv_Load p = Ok env -> missing env key ->
   Gen1.main fuel p h w = (Exited 1, w)).
Proof.
  intros Hkey.
  assert (key ∈ ["SOURCE_DOMAIN"; "SOURCE_CLIENT_ID"; "SOURCE_CLIENT_SECRET"] \/
          key ∈ ["DESTINATION_DOMAIN"; "DESTINATION_CLIENT_ID";
                 "DESTINATION_CLIENT_SECRET"]) as [Hsource|Htarget].
  { change ["SOURCE_DOMAIN"; "SOURCE_CLIENT_ID"; "SOURCE_CLIENT_SECRET";
            "DESTINATION_DOMAIN"; "DESTINATION_CLIENT_ID"; "DESTINATION_CLIENT_SECRET"]
      with (["SOURCE_DOMAIN"; "SOURCE_CLIENT_ID"; "SOURCE_CLIENT_SECRET"] ++
            ["DESTINATION_DOMAIN"; "DESTINATION_CLIENT_ID"; "DESTINATION_CLIENT_SECRET"])
      in Hkey.
    now apply elem_of_app in Hkey. }
  - split.
    + intros Hmissing. rewrite Gen2_main_unfold.
      destruct (getAuth0Client_missing p _ _ _ _ key Hsource Hmissing) as [e ->].
      reflexivity.
    + intros env Hload Hmissing. unfold Gen1.main. rewrite Hload.
      destruct (Gen1_getSourceAuth0Client_missing p env key Hsource Hmissing) as [e ->].
      reflexivity.
  - split.
    + intros Hmissing. rewrite Gen2_main_unfold.
      destruct (getAuth0Client_missing p _ _ _ _ key Htarget Hmissing) as [e ->].
      destruct (Gen2.getAuth0Client p _ "SOURCE_DOMAIN" _ _); reflexivity.
    + intros env Hload Hmissing. unfold Gen1.main. rewrite Hload.
      destruct (Gen1_getTargetAuth0Client_missing p env key Htarget Hmissing) as [e ->].
      destruct (Gen1.getSourceAuth0Client p env); reflexivity.
Qed.

Lemma main_requires_credentials_witness :
  Gen2.main (lib := Sample.library Sample.two_records Sample.table) 5
    (Sample.process_incomplete CmdExport) Sample.host []
  = (Normal tt, []) /\
  Gen1.main (lib := Sample.library Sample.two_records Sample.table) 5
    (Sample.process_incomplete CmdExport) Sample.host []
  = (Exited 1, []).
Proof.
  destruct (main_requires_credentials
              (lib := Sample.library Sample.two_records Sample.table) 5
              (Sample.process_incomplete CmdExport) Sample.host []
              "DESTINATION_CLIENT_SECRET") as [H2 H1].
  - do 5 apply list_elem_of_further. apply list_elem_of_here.
  - split.
    + apply H2. left. vm_compute. reflexivity.
    + apply (H1 (∅ ∪ delete "DESTINATION_CLIENT_SECRET" Sample.credentials));
        [reflexivity|]. left. vm_compute. reflexivity.
Defined.

(** X18. Without a [.env] file the second generation goes on with the
    environment of the process, as it would with an empty file; the first
    generation exits with status 1 before anything else. *)
Theorem main_without_dotenv {lib : Library} (fuel : nat) (p : Process) (h : Host)
    (w : World) (e : error) :
  dotenv p = Err e ->
  Gen2.main fuel p h w
  = Gen2.main fuel (mkProcess (environ p) (Ok ∅) (management_New p) (command p)) h w /\
  Gen1.main fuel p h w = (Exited 1, w).
Proof.
  intros Hdotenv. split.
  - rewrite !Gen2_main_unfold. unfold godotenv_Load. rewrite Hdotenv. simpl.
    now rewrite (right_id_L ∅ (∪)).
  - unfold Gen1.main, godotenv_Load. now rewrite Hdotenv.
Qed.

Lemma main_without_dotenv_witness :
  Gen2.main (lib := Sample.library Sample.two_records Sample.table) 5
    (Sample.process_without_dotenv CmdNone) Sample.host []
  = Gen2.main (lib := Sample.library Sample.two_records Sample.table) 5
      (mkProcess (environ (Sample.process_without_dotenv CmdNone)) (Ok ∅)
         (management_New (Sample.process_without_dotenv CmdNone))
         (command (Sample.process_without_dotenv CmdNone))) Sample.host [] /\
  Gen1.main (lib := Sample.library Sample.two_records Sample.table) 5
    (Sample.process_without_dotenv CmdNone) Sample.host []
  = (Exited 1, []).
Proof.
  apply (main_without_dotenv (lib := Sample.library Sample.two_records Sample.table) 5
           (Sample.process_without_dotenv CmdNone) Sample.host []
           "open .env: no such file or directory").
  reflexivity.
Defined.

(** ** More on the batches *)

Section Batches.
Context {lib : Library}.

(** Once the batch in progress holds a record, no batch closed from then
    on is empty. *)
Lemma pack_nonempty size maxChunkSize users chunks chunk chunkSize :
  chunk ≠ [] ->
  exists closed,
    pack size maxChunkSize users chunks chunk chunkSize = chunks ++ closed /\
    Forall (fun c : list GoMap => c ≠ []) closed.
Proof.
  revert chunks chunk chunkSize.
  induction users as [|user users IH]; intros chunks chunk chunkSize Hne.
  - rewrite pack_nil. destruct chunk; [congruence|].
    eexists. split; [reflexivity|]. now constructor.
  - destruct (Z.lt_ge_cases maxChunkSize (int_add chunkSize (size user))) as [Hgt|Hle].
    + rewrite pack_cons_flush by exact Hgt.
      destruct (IH (chunks ++ [chunk]) [user] (int_add 0 (size user))) as (closed & -> & Hall);
        [discriminate|].
      exists (chunk :: closed). rewrite <- app_assoc. split; [reflexivity|].
      now constructor.
    + rewrite pack_cons_keep by exact Hle.
      apply IH. now destruct chunk.
Qed.

(** From the start: all batches hold a record, but for an empty first one
    when the first record is over the cap. *)
Lemma pack_first_only size maxChunkSize users :
  exists closed,
    Forall (fun c : list GoMap => c ≠ []) closed /\
    (pack size maxChunkSize users [] [] 0%Z = closed \/
     pack size maxChunkSize users [] [] 0%Z = [] :: closed /\
     exists user rest, users = user :: rest /\
                       (maxChunkSize < int_add 0 (size user))%Z).
Proof.
  destruct users as [|user users].
  - exists []. split; [constructor | now left].
  - destruct (Z.lt_ge_cases maxChunkSize (int_add 0 (size user))) as [Hgt|Hle].
    + rewrite pack_cons_flush by exact Hgt.
      destruct (pack_nonempty size maxChunkSize users ([] ++ [[]]) [user]
                  (int_add 0 (size user))) as (closed & -> & Hall); [discriminate|].
      exists closed. split; [exact Hall|]. right. split; [reflexivity|]. eauto.
    + rewrite pack_cons_keep by exact Hle.
      destruct (pack_nonempty size maxChunkSize users [] ([] ++ [user])
                  (int_add 0 (size user))) as (closed & -> & Hall); [discriminate|].
      exists closed. split; [exact Hall|]. now left.
Qed.

(** Records that fit the cap together are one batch. *)
Lemma pack_all_fit maxChunkSize users chunks chunk chunkSize :
  chunkSize = total_size chunk ->
  (total_size chunk + total_size users <= maxChunkSize)%Z ->
  (total_size chunk + total_size users <= MaxInt)%Z ->
  pack serialized_size maxChunkSize users chunks chunk chunkSize
  = match chunk ++ users with
    | [] => chunks
    | _ => chunks ++ [chunk ++ users]
    end.
Proof.
  revert chunk chunkSize.
  induction users as [|user users IH]; intros chunk chunkSize -> Hfit Hmax.
  - rewrite pack_nil, app_nil_r. reflexivity.
  - simpl in Hfit, Hmax.
    pose proof (serialized_size_nonneg user) as Huser.
    pose proof (total_size_nonneg chunk) as Hc.
    pose proof (total_size_nonneg users) as Hus.
    assert (int_add (total_size chunk) (serialized_size user) =
            (total_size chunk + serialized_size user)%Z) as Hadd
      by (apply int_add_in_range; lia).
    rewrite pack_cons_keep by lia.
    rewrite (IH (chunk ++ [user])).
    + rewrite <- app_assoc. simpl. destruct chunk; reflexivity.
    + rewrite Hadd, total_size_app. simpl. lia.
    + rewrite total_size_app. simpl. lia.
    + rewrite total_size_app. simpl. lia.
Qed.

(** X19. Of the batches [splitJSONData] returns, in either generation,
    only the first can be empty, and it is only when the first record
    alone is over the cap: the batches are non-empty ones, preceded by an
    empty one in that case alone. *)
Theorem splitJSONData_only_first_empty :
  (forall reader maxChunkSize emailVerify chunks,
     Gen2.splitJSONData reader maxChunkSize emailVerify = Normal (Ok chunks) ->
     exists closed,
       Forall (fun c : list GoMap => c ≠ []) closed /\
       (chunks = closed \/
        chunks = [] :: closed /\
        exists user rest, concat chunks = user :: rest /\
                          (maxChunkSize < int_add 0 (serialized_size user))%Z)) /\
  (forall data maxChunkSize chunks,
     Gen1.splitJSONData data maxChunkSize = Ok chunks ->
     exists closed,
       Forall (fun c : list GoMap => c ≠ []) closed /\
       (chunks = closed \/
        chunks = [] :: closed /\
        exists user rest, concat chunks = user :: rest /\
                          (maxChunkSize < int_add 0 (serialized_size user))%Z)).
Proof.
  split.
  - intros reader maxChunkSize emailVerify chunks Hrun.
    apply Gen2_splitJSONData_pack in Hrun as (records & _ & Hpack & Hcat).
    destruct (pack_first_only serialized_size maxChunkSize
                (with_email_verified emailVerify <$> records))
      as (closed & Hall & [Hall'|(Hfirst & user & rest & Hrec & Hbig)]);
      exists closed; (split; [exact Hall|]).
    + left. congruence.
    + right. split; [congruence|]. exists user, rest. split; [congruence | exact Hbig].
  - intros data maxChunkSize chunks Hrun.
    apply Gen1_splitJSONData_pack in Hrun as (users & _ & Hpack & Hcat).
    destruct (pack_first_only serialized_size maxChunkSize users)
      as (closed & Hall & [Hall'|(Hfirst & user & rest & Hrec & Hbig)]);
      exists closed; (split; [exact Hall|]).
    + left. congruence.
    + right. split; [congruence|]. exists user, rest. split; [congruence | exact Hbig].
Qed.

(** X20. Records that serialize, all together, to no more than the cap
    (and no more than [MaxInt]) come back as one batch, in either
    generation. *)
Theorem splitJSONData_one_batch :
  (forall reader maxChunkSize emailVerify chunks,
     Gen2.splitJSONData reader maxChunkSize emailVerify = Normal (Ok chunks) ->
     concat chunks ≠ [] ->
     (total_size (concat chunks) <= maxChunkSize)%Z ->
     (total_size (concat chunks) <= MaxInt)%Z ->
     chunks = [concat chunks]) /\
  (forall data maxChunkSize chunks,
     Gen1.splitJSONData data maxChunkSize = Ok chunks ->
     concat chunks ≠ [] ->
     (total_size (concat chunks) <= maxChunkSize)%Z ->
     (total_size (concat chunks) <= MaxInt)%Z ->
     chunks = [concat chunks]).
Proof.
  split.
  - intros reader maxChunkSize emailVerify chunks Hrun Hne Hfit Hmax.
    apply Gen2_splitJSONData_pack in Hrun as (records & _ & Hpack & Hcat).
    rewrite Hcat in *. rewrite Hpack.
    rewrite pack_all_fit by (simpl; lia).
    now destruct (with_email_verified emailVerify <$> records).
  - intros data maxChunkSize chunks Hrun Hne Hfit Hmax.
    apply Gen1_splitJSONData_pack in Hrun as (users & _ & Hpack & Hcat).
    rewrite Hcat in *. rewrite Hpack.
    rewrite pack_all_fit by (simpl; lia).
    now destruct users.
Qed.

End Batches.

Lemma splitJSONData_only_first_empty_witness :
  exists closed,
    Forall (fun c : list GoMap => c ≠ []) closed /\
    ([[]; [with_email_verified true Sample.user3]] = closed \/
     [[]; [with_email_verified true Sample.user3]] = [] :: closed /\
     exists user rest,
       concat [[]; [with_email_verified true Sample.user3]] = user :: rest /\
       (10 < int_add 0
               (serialized_size (lib := Sample.library Sample.one_record Sample.table)
                  user))%Z).
Proof.
  apply (proj1 (splitJSONData_only_first_empty
                  (lib := Sample.library Sample.one_record Sample.table))
           EmptyString 10%Z true).
  run_model.
Defined.

Lemma splitJSONData_one_batch_witness :
  [[with_email_verified true Sample.user1; with_email_verified true Sample.user2]]
  = [concat [[with_email_verified true Sample.user1;
              with_email_verified true Sample.user2]]].
Proof.
  apply (proj1 (splitJSONData_one_batch
                  (lib := Sample.library Sample.two_records Sample.table))
           EmptyString 500000%Z true).
  - run_model.
  - discriminate.
  - vm_compute. discriminate.
  - vm_compute. discriminate.
Defined.

(** ** Blank lines in the first generation *)

Lemma strings_Split_nonempty (s : string) (sep : Ascii.ascii) :
  strings_Split s sep ≠ [].
Proof.
  destruct s as [|c s]; simpl; [discriminate|].
  destruct (Ascii.eqb c sep); [discriminate|].
  destruct (strings_Split s sep); discriminate.
Qed.

(** A separator at the end adds one empty piece. *)
Lemma strings_Split_trailing (s : string) (sep : Ascii.ascii) :
  strings_Split (s +:+ String sep EmptyString) sep
  = strings_Split s sep ++ [EmptyString].
Proof.
  induction s as [|c s IH]; simpl.
  - now rewrite Ascii.eqb_refl.
  - destruct (Ascii.eqb c sep); [now rewrite IH|].
    change (String.append s (String sep EmptyString)) with (s +:+ String sep EmptyString).
    rewrite IH. pose proof (strings_Split_nonempty s sep) as Hne.
    destruct (strings_Split s sep); [congruence | reflexivity].
Qed.

Section BlankLines.
Context {lib : Library}.

(** A line that is blank once trimmed is passed over, wherever it is. *)
Lemma Gen1_splitJSONData_loop_blank before blank after maxChunkSize
    chunks chunk chunkSize :
  TrimSpace blank = EmptyString ->
  Gen1.splitJSONData_loop (before ++ blank :: after) maxChunkSize chunks chunk chunkSize
  = Gen1.splitJSONData_loop (before ++ after) maxChunkSize chunks chunk chunkSize.
Proof.
  intros Hblank. revert chunks chunk chunkSize.
  induction before as [|line before IH]; intros chunks chunk chunkSize; simpl.
  - now rewrite Hblank.
  - destruct (String.eqb (TrimSpace line) EmptyString); [apply IH|].
    destruct (Unmarshal (TrimSpace line)) as [user|e]; [|reflexivity].
    destruct (Marshal user) as [userData|e]; [|reflexivity].
    destruct (int_add chunkSize (len userData) >? maxChunkSize)%Z; apply IH.
Qed.

(** X21. In the first generation a newline at the end of the input
    changes nothing of the result, batches or error, as long as trimming
    the empty line leaves it empty. *)
Theorem Gen1_splitJSONData_trailing_newline (data : string) (maxChunkSize : Z) :
  TrimSpace EmptyString = EmptyString ->
  Gen1.splitJSONData (data +:+ String (Ascii.ascii_of_nat 10) EmptyString) maxChunkSize
  = Gen1.splitJSONData data maxChunkSize.
Proof.
  intros Hblank. unfold Gen1.splitJSONData.
  rewrite strings_Split_trailing.
  rewrite (Gen1_splitJSONData_loop_blank _ EmptyString [] _ _ _ _ Hblank).
  now rewrite app_nil_r.
Qed.

End BlankLines.

Lemma Gen1_splitJSONData_trailing_newline_witness :
  Gen1.splitJSONData (lib := Sample.library Sample.two_records Sample.table)
    (Sample.two_lines +:+ String (Ascii.ascii_of_nat 10) EmptyString) 500000%Z
  = Gen1.splitJSONData (lib := Sample.library Sample.two_records Sample.table)
      Sample.two_lines 500000%Z.
Proof.
  apply (Gen1_splitJSONData_trailing_newline
           (lib := Sample.library Sample.two_records Sample.table)
           Sample.two_lines 500000%Z).
  reflexivity.
Defined.
